(** * collectc: the growable vector of [src/vector.c]

    A shallow embedding of the vector engine.

    - The handle [vector_t] is a 64-bit word ([uintptr_t] on an LP64
      platform); [size_t] arithmetic wraps modulo [2^64] and every
      operation of the source is written out with [wrap].
    - The C heap is a finite map from block addresses to blocks.  A block
      is the [vector_header_t], kept as its three fields, followed by the
      element storage, kept as bytes; the offset of an element is the
      byte offset [index * elementSize] that the source computes.  A
      pointer may also address the bytes of the header (the handle itself
      is the address of the first one): read or written through such a
      pointer, the three fields are their 24 bytes, least significant
      byte first.
    - Every function of [vector.c] is a computation in a state-and-error
      monad over that heap.  It returns a value and the heap it leaves, or
      stops with [Abort] (the process called [abort()]), or with [Fault]:
      the execution read or wrote outside a live block, or through a null
      or dangling pointer.  C gives such an execution no meaning, and
      nothing below says what comes after it.
    - [malloc] and [realloc] answer through a parameter [alloc], which
      chooses the address and the indeterminate contents of a new block,
      or fails. *)

From Stdlib Require Import ZArith Lia.
From Stdlib.Init Require Import Byte.
From stdpp Require Import gmap list.

Local Open Scope Z_scope.

(** ** Words *)

Definition CHAR_BIT : Z := 8.
(** [sizeof(vector_t)], [sizeof(size_t)] and [sizeof(void * )]. *)
Definition sizeof_word : Z := 8.
Definition word_bits : Z := sizeof_word * CHAR_BIT.
Definition modulus : Z := 2 ^ word_bits.

(** Reduction of an arithmetic result to a [size_t]. *)
Definition wrap (n : Z) : Z := n mod modulus.

(** A [size_t] value. *)
Definition is_size (n : Z) : Prop := 0 <= n < modulus.

(** ** Blocks and the heap *)

Abbreviation bytes := (list byte).
Abbreviation zlen s := (Z.of_nat (Datatypes.length s)).

(** [vector_header_t]: the allocation header for an above-zero-capacity
    vector. *)
Record vector_header : Type := Header {
  capacity : Z;
  length : Z;
  elementSize : Z
}.

Definition sizeof_header : Z := 3 * sizeof_word.

(** One [malloc]ed block: the header, then the bytes that follow it. *)
Record block : Type := Block {
  header : vector_header;
  storage : bytes
}.

Abbreviation heap := (gmap Z block).

(** A pointer the library receives or returns: null, a pointer into the
    block at [base], or a pointer to memory of the caller that is no part
    of any block, given with the bytes it currently holds from the pointer
    onwards.  [Elem base offset] is the address
    [base + sizeof(vector_header_t) + offset]: byte [offset] of the element
    storage, or, for a negative [offset], a byte of the header
    ([Elem base (- sizeof_header)] is the handle [base] cast to a
    pointer). *)
Inductive pointer : Type :=
| NULL
| Elem (base : Z) (offset : Z)
| Caller (contents : bytes).

(** ** Outcomes and the monad *)

Inductive outcome (A : Type) : Type :=
| Ok (a : A)
| Abort
| Fault.
Arguments Ok {A} a.
Arguments Abort {A}.
Arguments Fault {A}.

Definition M (A : Type) : Type := heap -> outcome (A * heap).

Definition ret {A} (a : A) : M A := fun h => Ok (a, h).

Definition bind {A B} (m : M A) (k : A -> M B) : M B :=
  fun h =>
    match m h with
    | Ok (a, h') => k a h'
    | Abort => Abort
    | Fault => Fault
    end.

Definition abort {A} : M A := fun _ => Abort.
Definition fault {A} : M A := fun _ => Fault.

Notation "'let*' x ':=' m 'in' k" := (bind m (fun x => k))
  (at level 10, x name, m at level 100, k at level 200).
Notation "m ';;' k" := (bind m (fun _ => k))
  (at level 100, k at level 200, right associativity).

(** ** Byte ranges of a storage *)

(** The [n] bytes of [s] from offset [off], when they all exist. *)
Definition read_at (s : bytes) (off n : Z) : option bytes :=
  if (0 <=? off) && (0 <=? n) && (off + n <=? zlen s)
  then Some (take (Z.to_nat n) (drop (Z.to_nat off) s))
  else None.

(** [s] with [bs] in the place of the bytes from offset [off]. *)
Definition splice (s : bytes) (off : nat) (bs : bytes) : bytes :=
  take off s ++ bs ++ drop (off + Datatypes.length bs) s.

(** [s] with the bytes [bs] written from offset [off], when they all fit. *)
Definition write_at (s : bytes) (off : Z) (bs : bytes) : option bytes :=
  if (0 <=? off) && (off + zlen bs <=? zlen s)
  then Some (splice s (Z.to_nat off) bs)
  else None.

(** ** The bytes of a block *)

Definition byte_of (n : Z) : byte :=
  match Byte.of_N (Z.to_N (n mod 256)) with
  | Some b => b
  | None => x00
  end.

(** The [k] bytes of a word in memory, least significant first, and the
    word that a run of bytes holds. *)
Fixpoint word_bytes (k : nat) (n : Z) : bytes :=
  match k with
  | O => []
  | S k => byte_of n :: word_bytes k (n / 256)
  end.

Fixpoint word_of (bs : bytes) : Z :=
  match bs with
  | [] => 0
  | b :: bs => Z.of_N (Byte.to_N b) + 256 * word_of bs
  end.

(** A [vector_header_t] in memory: [capacity], [length], [elementSize]. *)
Definition header_bytes (hd : vector_header) : bytes :=
  word_bytes 8 (capacity hd) ++ word_bytes 8 (length hd)
  ++ word_bytes 8 (elementSize hd).

Definition header_from (bs : bytes) : vector_header :=
  Header (word_of (take 8 bs)) (word_of (take 8 (drop 8 bs)))
    (word_of (take 8 (drop 16 bs))).

(** All the bytes of a block, from its address on, and the block that a
    run of bytes is. *)
Definition image (b : block) : bytes := header_bytes (header b) ++ storage b.

Definition block_of (bs : bytes) : block :=
  Block (header_from (take 24 bs)) (drop 24 bs).

(** Reading and writing at byte [off] of the storage of a block.  An access
    that starts in the storage must stay in it; one that starts in the
    header ([off < 0]) runs over the bytes of the block, and what it writes
    there is read back as the header fields. *)
Definition read_block (b : block) (off n : Z) : option bytes :=
  if 0 <=? off then read_at (storage b) off n
  else read_at (image b) (sizeof_header + off) n.

Definition write_block (b : block) (off : Z) (bs : bytes) : option block :=
  if 0 <=? off then
    match write_at (storage b) off bs with
    | Some new => Some (Block (header b) new)
    | None => None
    end
  else
    match write_at (image b) (sizeof_header + off) bs with
    | Some new => Some (block_of new)
    | None => None
    end.

(** The contents of a block resized to [n] bytes: the old bytes as far as
    they fit, then indeterminate ones. *)
Definition resize (n : nat) (old : bytes) (junk : nat -> byte) : bytes :=
  take n old ++ map junk (seq (Datatypes.length old) (n - Datatypes.length old)).

(** ** Header accesses *)

(** Reading a field through [header->...]. *)
Definition load_header (p : Z) : M vector_header :=
  fun h =>
    match h !! p with
    | Some b => Ok (header b, h)
    | None => Fault
    end.

Definition update_header (f : vector_header -> vector_header) (p : Z) : M unit :=
  fun h =>
    match h !! p with
    | Some b => Ok (tt, <[p := Block (f (header b)) (storage b)]> h)
    | None => Fault
    end.

(** [header->capacity = v], [header->length = v], [header->elementSize = v]. *)
Definition store_capacity (p v : Z) : M unit :=
  update_header (fun hd => Header v (length hd) (elementSize hd)) p.
Definition store_length (p v : Z) : M unit :=
  update_header (fun hd => Header (capacity hd) v (elementSize hd)) p.
Definition store_elementSize (p v : Z) : M unit :=
  update_header (fun hd => Header (capacity hd) (length hd) v) p.

(** ** [memmove] and [memcpy] *)

(** Reading [n] bytes through a pointer. *)
Definition peek (p : pointer) (n : Z) : M bytes :=
  fun h =>
    match p with
    | NULL => Fault
    | Caller bs =>
        match read_at bs 0 n with
        | Some r => Ok (r, h)
        | None => Fault
        end
    | Elem base off =>
        match h !! base with
        | Some b =>
            match read_block b off n with
            | Some r => Ok (r, h)
            | None => Fault
            end
        | None => Fault
        end
    end.

(** Writing bytes through a pointer.  The result is the same pointer; for
    memory of the caller it carries the new contents. *)
Definition poke (p : pointer) (bs : bytes) : M pointer :=
  fun h =>
    match p with
    | NULL => Fault
    | Caller old =>
        match write_at old 0 bs with
        | Some new => Ok (Caller new, h)
        | None => Fault
        end
    | Elem base off =>
        match h !! base with
        | Some b =>
            match write_block b off bs with
            | Some b' => Ok (p, <[base := b']> h)
            | None => Fault
            end
        | None => Fault
        end
    end.

(** A pointer that does not point into the header of a block. *)
Definition clear_of_headers (p : pointer) : Prop :=
  match p with
  | Elem _ off => 0 <= off
  | _ => True
  end.

(** Two ranges of [n] bytes overlap. *)
Definition overlap (p q : pointer) (n : Z) : bool :=
  match p, q with
  | Elem b1 o1, Elem b2 o2 => (b1 =? b2) && (o1 <? o2 + n) && (o2 <? o1 + n)
  | _, _ => false
  end.

(** [memmove(dst, src, n)].  A move of zero bytes touches nothing. *)
Definition memmove (dst src : pointer) (n : Z) : M pointer :=
  if n =? 0 then ret dst
  else let* bs := peek src n in poke dst bs.

(** [memcpy(dst, src, n)]: as [memmove], the ranges must not overlap.  A
    copy of zero bytes touches nothing, whatever the pointers. *)
Definition memcpy (dst src : pointer) (n : Z) : M pointer :=
  if n =? 0 then ret dst
  else if overlap dst src n then fault
  else let* bs := peek src n in poke dst bs.

(** ** Allocation *)

(** What the allocator hands out: the address of the new block and the
    indeterminate values its header and its bytes hold. *)
Record fresh : Type := Fresh {
  address : Z;
  junk_header : vector_header;
  junk_byte : nat -> byte
}.

Section Vector.

(** The C library's answer to a request for [size] bytes while the blocks
    of the given heap are live: [None] when it fails. *)
Variable alloc : heap -> Z -> option fresh.

(** [malloc(size)]; the result [0] is the null pointer.  A block too small
    for its header is never written in [vector.c] without leaving it, so
    such a request ends the execution the model follows. *)
Definition malloc (size : Z) : M Z :=
  fun h =>
    match alloc h size with
    | None => Ok (0, h)
    | Some f =>
        if size <? sizeof_header then Fault
        else Ok (address f,
                 <[address f := Block (junk_header f)
                      (resize (Z.to_nat (size - sizeof_header)) [] (junk_byte f))]> h)
    end.

(** [realloc(old, size)]: on success the old block is released and its
    contents are carried over; on failure it is left as it is. *)
Definition realloc (old size : Z) : M Z :=
  if old =? 0 then malloc size
  else fun h =>
    match h !! old with
    | None => Fault
    | Some b =>
        match alloc (delete old h) size with
        | None => Ok (0, h)
        | Some f =>
            if size <? sizeof_header then Fault
            else Ok (address f,
                     <[address f := Block (header b)
                          (resize (Z.to_nat (size - sizeof_header)) (storage b) (junk_byte f))]>
                       (delete old h))
        end
    end.

(** [free(p)] *)
Definition free (p : Z) : M unit :=
  fun h => if p =? 0 then Ok (tt, h)
           else match h !! p with
                | Some _ => Ok (tt, delete p h)
                | None => Fault
                end.

(** ** The vector

    The functions of [vector.c], in its order ([vector_at_mut] and
    [vector_at] come before [vector_first], which calls them).  A handle
    that C passes by address ([vector_t *vec]) goes in as a value and the
    handle to use afterwards comes out. *)

(** The maximum element size that can be encoded in the higher bits of a
    tagged "pointer" for a zero-capacity vector. *)
Definition MAX_ZERO_CAPACITY_ELEMENT_SIZE : Z :=
  wrap (Z.shiftl 1 (sizeof_word * CHAR_BIT - 1)).

(** Recovers the base address of a vector; [0] is the null pointer. *)
Definition vector_base (vec : Z) : Z :=
  let isZeroCapacity := negb (Z.land vec 1 =? 0) in
  if isZeroCapacity then 0 else vec.

(** A pointer to the element at the given index, without bounds checking. *)
Definition vector_at_unchecked (vec index : Z) : M pointer :=
  let base := vector_base vec in
  let* hd := load_header base in
  ret (Elem base (wrap (index * elementSize hd))).

Definition vector_new (initialCapacity elementSize : Z) : M Z :=
  let isZeroCapacity :=
    (initialCapacity =? 0) && (elementSize <=? MAX_ZERO_CAPACITY_ELEMENT_SIZE) in
  if isZeroCapacity then ret (Z.lor (wrap (Z.shiftl elementSize 1)) 1)
  else
    let* base := malloc (wrap (sizeof_header + wrap (initialCapacity * elementSize))) in
    if base =? 0 then abort else
    let header := base in
    store_capacity header initialCapacity;;
    store_length header 0;;
    store_elementSize header elementSize;;
    ret header.

Definition vector_len (vec : Z) : M Z :=
  let header := vector_base vec in
  if header =? 0 then ret 0
  else let* hd := load_header header in ret (length hd).

Definition vector_capacity (vec : Z) : M Z :=
  let header := vector_base vec in
  if header =? 0 then ret 0
  else let* hd := load_header header in ret (capacity hd).

Definition vector_element_size (vec : Z) : M Z :=
  let header := vector_base vec in
  if header =? 0 then ret (Z.shiftr vec 1)
  else let* hd := load_header header in ret (elementSize hd).

Definition vector_is_empty (vec : Z) : M bool :=
  let* n := vector_len vec in ret (n =? 0).

Definition vector_reserve (vec extraCapacity : Z) : M Z :=
  let* len := vector_len vec in
  let* oldCapacity := vector_capacity vec in
  if wrap (len + extraCapacity) <=? oldCapacity then ret vec else
  let* elementSize := vector_element_size vec in
  let newCapacity :=
    wrap (wrap (oldCapacity + wrap (oldCapacity / 2 * 3)) + extraCapacity) in
  let oldBase := vector_base vec in
  let* newBase := realloc oldBase (wrap (sizeof_header + wrap (newCapacity * elementSize))) in
  if newBase =? 0 then abort else
  let newHeader := newBase in
  store_length newHeader len;;
  store_capacity newHeader newCapacity;;
  store_elementSize newHeader elementSize;;
  ret newHeader.

Definition vector_insert (vec index : Z) (elements : pointer) (count : Z) : M Z :=
  let* vec := vector_reserve vec count in
  let header := vector_base vec in
  if header =? 0 then abort else
  let* hd := load_header header in
  if index >? length hd then abort else
  let* at_ := vector_at_unchecked vec index in
  (if index <? length hd then
     let* to := vector_at_unchecked vec (wrap (index + count)) in
     let* hd := load_header header in
     memmove to at_ (wrap (wrap (wrap (length hd - 1) - count) * elementSize hd));;
     ret tt
   else ret tt);;
  let* hd := load_header header in
  memcpy at_ elements (wrap (count * elementSize hd));;
  let* hd := load_header header in
  store_length header (wrap (length hd + count));;
  ret vec.

Definition vector_push (vec : Z) (elements : pointer) (count : Z) : M Z :=
  let* len := vector_len vec in
  vector_insert vec len elements count.

(** The result is [slice], carrying the bytes written when it points to
    memory of the caller. *)
Definition vector_slice (vec index : Z) (slice : pointer) (count : Z) : M pointer :=
  let header := vector_base vec in
  if header =? 0 then abort else
  let* hd := load_header header in
  if wrap (index + count) >? length hd then abort else
  let* from := vector_at_unchecked vec index in
  let* hd := load_header header in
  memcpy slice from (wrap (count * elementSize hd)).

Definition vector_extend (vec other : Z) : M Z :=
  let* es := vector_element_size vec in
  let* es' := vector_element_size other in
  if negb (es =? es') then abort else
  let otherBase := vector_base other in
  if negb (otherBase =? 0) then
    let* otherHeader := load_header otherBase in
    vector_push vec (Elem otherBase 0) (length otherHeader)
  else ret vec.

Definition vector_remove (vec index count : Z) : M unit :=
  let header := vector_base vec in
  if header =? 0 then abort else
  let* len := vector_len vec in
  if wrap (index + count) >? len then abort else
  let* from := vector_at_unchecked vec (wrap (index + count)) in
  let* to := vector_at_unchecked vec index in
  let* hd := load_header header in
  memmove to from
    (wrap (wrap (wrap (length hd - index) - count) * elementSize hd));;
  let* hd := load_header header in
  store_length header (wrap (length hd - count)).

Definition vector_at_mut (vec index : Z) : M pointer :=
  let* len := vector_len vec in
  if index <? len then vector_at_unchecked vec index else ret NULL.

Definition vector_at (vec index : Z) : M pointer :=
  vector_at_mut vec index.

Definition vector_first (vec : Z) : M pointer :=
  vector_at vec 0.

Definition vector_last (vec : Z) : M pointer :=
  let* len := vector_len vec in
  if len >? 0 then vector_at_unchecked vec (wrap (len - 1)) else ret NULL.

Definition vector_clear (vec : Z) : M unit :=
  let header := vector_base vec in
  if negb (header =? 0) then store_length header 0 else ret tt.

Definition vector_delete (vec : Z) : M unit :=
  free (vector_base vec).

End Vector.

(** ** Two allocators to run the code with *)

(** The end of the highest live block. *)
Definition brk (h : heap) : Z :=
  map_fold (fun k b m => Z.max (k + sizeof_header + zlen (storage b)) m) 0 h.

(** An allocator that never fails: the next 16-byte boundary above every
    live block, filled with the byte [0xaa]. *)
Definition bump (h : heap) (size : Z) : option fresh :=
  Some (Fresh (16 * (brk h / 16 + 1)) (Header 170 170 170) (fun _ => xaa)).

(** An allocator that always fails. *)
Definition no_memory (h : heap) (size : Z) : option fresh := None.

(** ** Handles *)

(** The tagged-empty form: the low bit is set, no block exists. *)
Definition tagged (vec : Z) : Prop := Z.land vec 1 <> 0.

(** The heap form: [vec] is the address of the live block [b]. *)
Definition backed (h : heap) (vec : Z) (b : block) : Prop :=
  Z.land vec 1 = 0 /\ vec <> 0 /\ h !! vec = Some b.

(** A block as [vector_new] and [vector_reserve] lay it out when no size
    computation overflows: the length is within the capacity, the size of
    the block is a [size_t], and [capacity * elementSize] bytes follow the
    header. *)
Record well_formed (b : block) : Prop := WellFormed {
  wf_length : 0 <= length (header b) <= capacity (header b);
  wf_elementSize : 0 <= elementSize (header b);
  wf_room : sizeof_header + capacity (header b) * elementSize (header b) < modulus;
  wf_capacity : capacity (header b) < modulus;
  wf_storage : zlen (storage b) = capacity (header b) * elementSize (header b)
}.

(** The element bytes a vector holds: the first [length * elementSize] bytes
    of its storage. *)
Definition contents (b : block) : bytes :=
  take (Z.to_nat (length (header b) * elementSize (header b))) (storage b).

(** A handle a caller may hold: the tagged-empty form, or the address of a
    live, well-formed block. *)
Definition valid (h : heap) (vec : Z) : Prop :=
  (tagged vec /\ is_size vec) \/ exists b, backed h vec b /\ well_formed b.

(** A computation that never changes the heap it runs in. *)
Definition read_only {A} (m : M A) : Prop :=
  forall h a h', m h = Ok (a, h') -> h' = h.

(** The bytes that follow the header of the block a handle points to; none
    for the tagged-empty form. *)
Definition stored (h : heap) (vec : Z) : bytes :=
  if vector_base vec =? 0 then []
  else match h !! vector_base vec with
       | Some b => storage b
       | None => []
       end.

(** The header a handle stands for: that of its block, or, for the
    tagged-empty form, no capacity, no length and the encoded element size. *)
Definition header_of (h : heap) (vec : Z) : vector_header :=
  if vector_base vec =? 0 then Header 0 0 (Z.shiftr vec 1)
  else match h !! vector_base vec with
       | Some b => header b
       | None => Header 0 0 0
       end.

(** The element bytes a handle stands for. *)
Definition contents_of (h : heap) (vec : Z) : bytes :=
  take (Z.to_nat (length (header_of h vec) * elementSize (header_of h vec)))
    (stored h vec).

(** Room for [count] more elements can be had at the handle [p]: the
    block of [vec] has it and [p] is [vec], or [realloc] grows the block
    and returns [p], with no size beyond a [size_t]. *)
Definition room_for (alloc : heap -> Z -> option fresh)
    (h : heap) (vec count p : Z) : Prop :=
  let hd := header_of h vec in
  let newCapacity := capacity hd + capacity hd / 2 * 3 + count in
  let size := sizeof_header + newCapacity * elementSize hd in
  (length hd + count <= capacity hd /\ (exists b, backed h vec b) /\ p = vec)
  \/ (capacity hd < length hd + count
      /\ newCapacity < modulus /\ size < modulus
      /\ p <> 0 /\ Z.land p 1 = 0
      /\ exists h1, realloc alloc (vector_base vec) size h = Ok (p, h1)).

(** The invariant of a handle: the length is within the capacity. *)
Definition bounded (h : heap) (vec : Z) : Prop :=
  length (header_of h vec) <= capacity (header_of h vec).

(** The allocator returns addresses whose lowest bit is clear, as the
    [_Static_assert] on [max_align_t] demands. *)
Definition aligned (alloc : heap -> Z -> option fresh) : Prop :=
  forall h n f, alloc h n = Some f -> Z.land (address f) 1 = 0.


(** ** Sample states *)

(** An [int] below 256 as its four bytes, and an array of them. *)
Definition int (n : N) : bytes :=
  match Byte.of_N n with
  | Some b => [b; x00; x00; x00]
  | None => []
  end.
Definition ints (l : list N) : bytes := concat (map int l).

(** [test_vector_mutation] of [test/vector.c]: the handles of [vec] and
    [other] and the heap before the two [vector_delete]s. *)
Definition test_vector_mutation : M (Z * Z) :=
  let* vec := vector_new bump 10 4 in
  let* vec := vector_push bump vec (Caller (ints [1; 2; 3; 4; 5; 6; 7; 8; 9]%N)) 9 in
  vector_remove vec 4 3;;
  let* vec := vector_push bump vec (Caller (ints [10]%N)) 1 in
  let* vec := vector_insert bump vec 4 (Caller (ints [5; 6; 7]%N)) 3 in
  let* other := vector_new bump 0 4 in
  let* other := vector_push bump other (Caller (ints [11]%N)) 1 in
  let* other := vector_push bump other (Caller (ints [12]%N)) 1 in
  let* other := vector_push bump other (Caller (ints [13]%N)) 1 in
  let* other := vector_push bump other (Caller (ints [14]%N)) 1 in
  let* vec := vector_extend bump vec other in
  ret (vec, other).

(** [test_vector_slice]: the three buffers after the three slices. *)
Definition test_vector_slice : M (pointer * pointer * pointer) :=
  let* vec := vector_new bump 8 4 in
  let* vec := vector_push bump vec (Caller (ints [1; 2; 3; 4; 5; 6]%N)) 6 in
  let* a := vector_slice vec 0 (Caller (ints [0; 0; 0; 0; 0; 0]%N)) 6 in
  let* b := vector_slice vec 2 (Caller (ints [0; 0; 0]%N)) 3 in
  let* c := vector_slice vec 5 (Caller (ints [0]%N)) 1 in
  ret (a, b, c).

(** [test_vector_nops]: the handle and the heap before and after the four
    zero-count calls. *)
Definition test_vector_nops : M (Z * heap * heap) :=
  let* vec := vector_new bump 0 4 in
  let* vec := vector_push bump vec (Caller (ints [1; 2; 3]%N)) 3 in
  fun before =>
    (vector_slice vec 0 NULL 0;;
     let* vec := vector_insert bump vec 1 NULL 0 in
     let* vec := vector_push bump vec NULL 0 in
     vector_remove vec 3 0;;
     fun after => Ok ((vec, before, after), after)) before.

(** A vector of one-byte elements holding 1, 2, 3 in a capacity of 4. *)
Definition three : block := Block (Header 4 3 1) [x01; x02; x03; xaa].
Definition heap_three : heap := {[ 16 := three ]}.

(** The vector [three] next to a second one holding 11, 12. *)
Definition pair : block := Block (Header 2 2 1) [x0b; x0c].
Definition heap_pair : heap := {[ 16 := three; 48 := pair ]}.

(** A vector holding one one-byte element in a capacity of 2. *)
Definition one_of_two : block := Block (Header 2 1 1) [x01; xaa].
Definition heap_one_of_two : heap := {[ 16 := one_of_two ]}.


(** A full vector of one-byte elements holding 1, 2, 3, 4. *)
Definition four : block := Block (Header 4 4 1) [x01; x02; x03; x04].
Definition heap_four : heap := {[ 16 := four ]}.

(** * Proofs *)

(** ** Words *)

Lemma modulus_eq : modulus = 18446744073709551616.
Proof. reflexivity. Qed.

Lemma wrap_small n : 0 <= n < modulus -> wrap n = n.
Proof. intros H. unfold wrap. now apply Z.mod_small. Qed.

Lemma wrap_range n : 0 <= wrap n < modulus.
Proof. unfold wrap. apply Z.mod_pos_bound. now rewrite modulus_eq. Qed.

Lemma wrap_0 : wrap 0 = 0.
Proof. reflexivity. Qed.

Lemma gtb_le a b : a <= b -> (a >? b) = false.
Proof. intros H. rewrite Z.gtb_ltb. now apply Z.ltb_ge. Qed.

Lemma gtb_gt a b : b < a -> (a >? b) = true.
Proof. intros H. rewrite Z.gtb_ltb. now apply Z.ltb_lt. Qed.

(** ** Running the monad *)

Lemma bind_ok {A B} (m : M A) (k : A -> M B) h a h' :
  m h = Ok (a, h') -> bind m k h = k a h'.
Proof. intros H. unfold bind. now rewrite H. Qed.

Lemma bind_abort {A B} (m : M A) (k : A -> M B) h :
  m h = Abort -> bind m k h = Abort.
Proof. intros H. unfold bind. now rewrite H. Qed.

Lemma bind_inv {A B} (m : M A) (k : A -> M B) h r h' :
  bind m k h = Ok (r, h') -> exists a h1, m h = Ok (a, h1) /\ k a h1 = Ok (r, h').
Proof.
  unfold bind. destruct (m h) as [[a h1]| |]; try discriminate.
  intros H. now exists a, h1.
Qed.

Lemma vector_base_even vec : Z.land vec 1 = 0 -> vector_base vec = vec.
Proof. intros H. unfold vector_base. now rewrite H. Qed.

Lemma vector_base_tagged vec : tagged vec -> vector_base vec = 0.
Proof.
  intros H. unfold vector_base.
  destruct (Z.eqb_spec (Z.land vec 1) 0) as [E|E]; [now destruct H | reflexivity].
Qed.

Lemma backed_insert h vec b b' : backed h vec b -> backed (<[vec := b']> h) vec b'.
Proof.
  intros (He & Hn & _). repeat split; trivial. apply lookup_insert_eq.
Qed.

Section Backed.

Context {h : heap} {vec : Z} {b : block} (Hb : backed h vec b).

Lemma base_backed : vector_base vec = vec.
Proof. destruct Hb as (He & _). now apply vector_base_even. Qed.

Lemma nonnull_backed : (vec =? 0) = false.
Proof. destruct Hb as (_ & Hn & _). now apply Z.eqb_neq. Qed.

Lemma run_load : load_header vec h = Ok (header b, h).
Proof. destruct Hb as (_ & _ & Hl). unfold load_header. now rewrite Hl. Qed.

Lemma run_update f :
  update_header f vec h = Ok (tt, <[vec := Block (f (header b)) (storage b)]> h).
Proof. destruct Hb as (_ & _ & Hl). unfold update_header. now rewrite Hl. Qed.

Lemma run_len : vector_len vec h = Ok (length (header b), h).
Proof.
  unfold vector_len. rewrite base_backed, nonnull_backed.
  now rewrite (bind_ok _ _ _ _ _ run_load).
Qed.

Lemma run_capacity : vector_capacity vec h = Ok (capacity (header b), h).
Proof.
  unfold vector_capacity. rewrite base_backed, nonnull_backed.
  now rewrite (bind_ok _ _ _ _ _ run_load).
Qed.

Lemma run_element_size : vector_element_size vec h = Ok (elementSize (header b), h).
Proof.
  unfold vector_element_size. rewrite base_backed, nonnull_backed.
  now rewrite (bind_ok _ _ _ _ _ run_load).
Qed.

Lemma run_at_unchecked index :
  vector_at_unchecked vec index h
  = Ok (Elem vec (wrap (index * elementSize (header b))), h).
Proof.
  unfold vector_at_unchecked. rewrite base_backed.
  now rewrite (bind_ok _ _ _ _ _ run_load).
Qed.

End Backed.

Section Tagged.

Context {vec : Z} (Ht : tagged vec) (h : heap).

Lemma run_len_tagged : vector_len vec h = Ok (0, h).
Proof. unfold vector_len. now rewrite (vector_base_tagged _ Ht). Qed.

Lemma run_capacity_tagged : vector_capacity vec h = Ok (0, h).
Proof. unfold vector_capacity. now rewrite (vector_base_tagged _ Ht). Qed.

Lemma run_element_size_tagged : vector_element_size vec h = Ok (Z.shiftr vec 1, h).
Proof. unfold vector_element_size. now rewrite (vector_base_tagged _ Ht). Qed.

End Tagged.

(** ** Accesses to a block *)

(** An access at an offset that is not negative is one to the storage. *)
Lemma read_block_storage b off n :
  0 <= off -> read_block b off n = read_at (storage b) off n.
Proof.
  intros H. unfold read_block.
  now replace (0 <=? off) with true by (symmetry; now apply Z.leb_le).
Qed.

Lemma write_block_storage b off bs :
  0 <= off ->
  write_block b off bs
  = match write_at (storage b) off bs with
    | Some new => Some (Block (header b) new)
    | None => None
    end.
Proof.
  intros H. unfold write_block.
  now replace (0 <=? off) with true by (symmetry; now apply Z.leb_le).
Qed.

Lemma length_word_bytes k n : Datatypes.length (word_bytes k n) = k.
Proof. revert n. induction k as [|k IH]; intros n; simpl; [reflexivity|]. now rewrite IH. Qed.

Lemma length_header_bytes hd : Datatypes.length (header_bytes hd) = 24%nat.
Proof. unfold header_bytes. now rewrite !length_app, !length_word_bytes. Qed.

Lemma word_bytes_of bs : word_bytes (Datatypes.length bs) (word_of bs) = bs.
Proof.
  induction bs as [|b bs IH]; [reflexivity|].
  assert (H := Byte.to_N_bounded b).
  cbn [Datatypes.length word_of word_bytes]. f_equal.
  - unfold byte_of.
    replace ((Z.of_N (Byte.to_N b) + 256 * word_of bs) mod 256)
      with (Z.of_N (Byte.to_N b)).
    + rewrite N2Z.id. now rewrite Byte.of_to_N.
    + rewrite (Z.mul_comm 256), Z.mod_add by lia.
      symmetry. apply Z.mod_small. lia.
  - replace ((Z.of_N (Byte.to_N b) + 256 * word_of bs) / 256) with (word_of bs);
      [exact IH|].
    rewrite (Z.mul_comm 256), Z.div_add by lia.
    rewrite Z.div_small by lia. lia.
Qed.

Lemma word_bytes_of_8 bs :
  Datatypes.length bs = 8%nat -> word_bytes 8 (word_of bs) = bs.
Proof. intros H. rewrite <- H. apply word_bytes_of. Qed.

Lemma header_bytes_from bs :
  Datatypes.length bs = 24%nat -> header_bytes (header_from bs) = bs.
Proof.
  intros H. unfold header_bytes, header_from.
  cbn [capacity length elementSize].
  rewrite !word_bytes_of_8 by (rewrite length_take, ?length_drop; lia).
  rewrite (take_ge (drop 16 bs)) by (rewrite length_drop; lia).
  change 16%nat with (8 + 8)%nat. rewrite <- drop_drop.
  now rewrite !take_drop.
Qed.

Lemma to_N_byte_of n : Z.of_N (Byte.to_N (byte_of n)) = n mod 256.
Proof.
  assert (Hn : 0 <= n mod 256 < 256) by (apply Z.mod_pos_bound; lia).
  unfold byte_of. destruct (Byte.of_N (Z.to_N (n mod 256))) as [b|] eqn:E.
  - apply Byte.to_of_N in E. rewrite E. apply Z2N.id. lia.
  - apply Byte.of_N_None_iff in E. lia.
Qed.

Lemma word_of_bytes k n : word_of (word_bytes k n) = n mod 256 ^ Z.of_nat k.
Proof.
  revert n. induction k as [|k IH]; intros n.
  - simpl. now rewrite Z.mod_1_r.
  - cbn [word_bytes word_of]. rewrite to_N_byte_of, IH.
    rewrite Nat2Z.inj_succ, Z.pow_succ_r by lia.
    symmetry. apply Z.rem_mul_r; [lia|]. apply Z.pow_pos_nonneg; lia.
Qed.

(** The fields of a header are read back from its bytes. *)
Lemma header_from_bytes hd :
  is_size (capacity hd) -> is_size (length hd) -> is_size (elementSize hd) ->
  header_from (header_bytes hd) = hd.
Proof.
  unfold is_size. rewrite modulus_eq. intros Hc Hl He.
  unfold header_from, header_bytes.
  rewrite (take_app_length' (word_bytes 8 (capacity hd))) by (now rewrite length_word_bytes).
  rewrite (drop_app_length' (word_bytes 8 (capacity hd))) by (now rewrite length_word_bytes).
  rewrite (take_app_length' (word_bytes 8 (length hd))) by (now rewrite length_word_bytes).
  change 16%nat with (8 + 8)%nat. rewrite <- drop_drop.
  rewrite (drop_app_length' (word_bytes 8 (capacity hd))) by (now rewrite length_word_bytes).
  rewrite (drop_app_length' (word_bytes 8 (length hd))) by (now rewrite length_word_bytes).
  rewrite take_ge by (rewrite length_word_bytes; lia).
  rewrite !word_of_bytes. change (256 ^ Z.of_nat 8) with 18446744073709551616.
  rewrite !Z.mod_small by lia. now destruct hd.
Qed.

Lemma image_block_of bs :
  (24 <= Datatypes.length bs)%nat -> image (block_of bs) = bs.
Proof.
  intros H. unfold image, block_of. cbn [header storage].
  rewrite header_bytes_from by (rewrite length_take; lia).
  apply take_drop.
Qed.

Lemma length_image b : zlen (image b) = sizeof_header + zlen (storage b).
Proof.
  unfold image. rewrite length_app, length_header_bytes.
  unfold sizeof_header, sizeof_word. lia.
Qed.

Lemma read_at_length s off n r : read_at s off n = Some r -> zlen r = n.
Proof.
  unfold read_at. destruct (_ && _) eqn:E; [|discriminate].
  intros H. inversion H; subst. clear H.
  apply andb_true_iff in E as (E & E3). apply andb_true_iff in E as (E1 & E2).
  apply Z.leb_le in E1, E2, E3.
  rewrite length_take, length_drop. lia.
Qed.

Lemma length_splice s off bs :
  (off + Datatypes.length bs <= Datatypes.length s)%nat ->
  Datatypes.length (splice s off bs) = Datatypes.length s.
Proof.
  intros H. unfold splice. rewrite !length_app, length_take, length_drop. lia.
Qed.

Lemma write_at_inv s off bs new :
  write_at s off bs = Some new ->
  0 <= off /\ off + zlen bs <= zlen s /\ new = splice s (Z.to_nat off) bs.
Proof.
  unfold write_at. destruct (_ && _) eqn:E; [|discriminate].
  apply andb_true_iff in E as (E1 & E2). apply Z.leb_le in E1, E2.
  intros H. inversion H. now repeat split.
Qed.

Lemma splice_app l1 l2 off bs :
  splice (l1 ++ l2) (Datatypes.length l1 + off) bs = l1 ++ splice l2 off bs.
Proof.
  unfold splice. rewrite take_app_add, <- Nat.add_assoc, drop_app_add.
  now rewrite <- app_assoc.
Qed.

(** What a write into a block does to its bytes: the bytes written take
    the place of those at the address, every other byte of the block is as
    before, and a write that starts in the storage leaves the header
    fields alone. *)
Lemma write_block_image b off bs b' :
  write_block b off bs = Some b' ->
  - sizeof_header <= off
  /\ sizeof_header + off + zlen bs <= zlen (image b)
  /\ image b' = splice (image b) (Z.to_nat (sizeof_header + off)) bs
  /\ (0 <= off -> header b' = header b).
Proof.
  assert (Hsz : sizeof_header = 24) by reflexivity.
  unfold write_block. destruct (Z.leb_spec 0 off) as [H0|H0].
  - destruct (write_at _ _ _) as [new|] eqn:Hw; [|discriminate].
    apply write_at_inv in Hw as (_ & Hfit & ->).
    intros H. inversion H; subst b'. clear H. rewrite length_image.
    split; [lia|]. split; [lia|]. split; [|reflexivity].
    unfold image. cbn [header storage].
    replace (Z.to_nat (sizeof_header + off))
      with (Datatypes.length (header_bytes (header b)) + Z.to_nat off)%nat
      by (rewrite length_header_bytes; lia).
    now rewrite splice_app.
  - destruct (write_at _ _ _) as [new|] eqn:Hw; [|discriminate].
    apply write_at_inv in Hw as (Hlo & Hfit & ->).
    intros H. inversion H; subst b'. clear H.
    split; [lia|]. split; [lia|]. split; [|lia].
    apply image_block_of. rewrite length_splice by lia.
    assert (Hl := length_image b). lia.
Qed.

Lemma poke_block base off bs h p h' :
  poke (Elem base off) bs h = Ok (p, h') ->
  exists b b',
    h !! base = Some b /\ write_block b off bs = Some b'
    /\ p = Elem base off /\ h' = <[base := b']> h.
Proof.
  unfold poke. destruct (h !! base) as [b|]; [|discriminate].
  destruct (write_block _ _ _) as [b'|] eqn:Hw; [|discriminate].
  intros H. inversion H; subst. now exists b, b'.
Qed.

Lemma peek_length p n h bs h1 : peek p n h = Ok (bs, h1) -> zlen bs = n.
Proof.
  unfold peek. destruct p as [|base off|old]; [discriminate | |].
  - destruct (h !! base) as [b|]; [|discriminate].
    destruct (read_block _ _ _) as [r|] eqn:Hr; [|discriminate].
    intros H. inversion H; subst. unfold read_block in Hr.
    destruct (0 <=? off); now apply read_at_length in Hr.
  - destruct (read_at _ _ _) as [r|] eqn:Hr; [|discriminate].
    intros H. inversion H; subst. now apply read_at_length in Hr.
Qed.

(** ** Clearing *)

Lemma run_store_length h vec b v :
  backed h vec b ->
  store_length vec v h
  = Ok (tt, <[vec := Block (Header (capacity (header b)) v (elementSize (header b)))
                           (storage b)]> h).
Proof. intros Hb. unfold store_length. now rewrite (run_update Hb). Qed.

Lemma run_clear h vec b :
  backed h vec b ->
  vector_clear vec h
  = Ok (tt, <[vec := Block (Header (capacity (header b)) 0 (elementSize (header b)))
                           (storage b)]> h).
Proof.
  intros Hb. unfold vector_clear.
  rewrite (base_backed Hb), (nonnull_backed Hb). simpl.
  now apply run_store_length.
Qed.

(** C9: for a heap-backed vector, [vector_remove(v, 0, vector_len(v))] and
    [vector_clear(v)] end in the same heap: the block at the same handle
    with length zero and its capacity, element size and storage as before. *)
Theorem remove_all_is_clear h vec b :
  backed h vec b ->
  is_size (length (header b)) ->
  let cleared :=
    <[vec := Block (Header (capacity (header b)) 0 (elementSize (header b)))
                   (storage b)]> h in
  (let* n := vector_len vec in vector_remove vec 0 n) h = Ok (tt, cleared)
  /\ vector_clear vec h = Ok (tt, cleared).
Proof.
  intros Hb Hlen cleared. split; [|now apply run_clear].
  rewrite (bind_ok _ _ _ _ _ (run_len Hb)).
  unfold vector_remove.
  rewrite (base_backed Hb), (nonnull_backed Hb).
  rewrite (bind_ok _ _ _ _ _ (run_len Hb)).
  rewrite Z.add_0_l, (wrap_small _ Hlen).
  rewrite gtb_le by lia.
  rewrite (bind_ok _ _ _ _ _ (run_at_unchecked Hb _)).
  rewrite (bind_ok _ _ _ _ _ (run_at_unchecked Hb _)).
  rewrite (bind_ok _ _ _ _ _ (run_load Hb)).
  rewrite Z.sub_0_r, (wrap_small _ Hlen), Z.sub_diag, wrap_0, Z.mul_0_l, wrap_0.
  unfold memmove. simpl (0 =? 0).
  rewrite (bind_ok _ _ _ _ _ eq_refl).
  rewrite (bind_ok _ _ _ _ _ (run_load Hb)).
  rewrite Z.sub_diag, wrap_0.
  now apply run_store_length.
Qed.

Lemma backed_three : backed heap_three 16 three.
Proof. split; [reflexivity | split; [discriminate | reflexivity]]. Qed.

Lemma well_formed_three : well_formed three.
Proof. constructor; cbn; rewrite ?modulus_eq; unfold sizeof_header, sizeof_word; lia. Qed.

Lemma remove_all_is_clear_witness :
  (let* n := vector_len 16 in vector_remove 16 0 n) heap_three
  = Ok (tt, <[16 := Block (Header 4 0 1) [x01; x02; x03; xaa]]> heap_three)
  /\ vector_clear 16 heap_three
     = Ok (tt, <[16 := Block (Header 4 0 1) [x01; x02; x03; xaa]]> heap_three).
Proof.
  apply (remove_all_is_clear heap_three 16 three backed_three).
  simpl. unfold is_size. rewrite modulus_eq. lia.
Defined.

(** ** Positional access *)


Lemma valid_three : valid heap_three 16.
Proof.
  right. exists three. split; [apply backed_three | apply well_formed_three].
Qed.


(** ** Frame of the readers *)

Lemma read_only_ret {A} (a : A) : read_only (ret a).
Proof. intros h a' h' H. now inversion H. Qed.

Lemma read_only_abort {A} : read_only (@abort A).
Proof. intros h a h' H. discriminate. Qed.

Lemma read_only_fault {A} : read_only (@fault A).
Proof. intros h a h' H. discriminate. Qed.

Lemma read_only_bind {A B} (m : M A) (k : A -> M B) :
  read_only m -> (forall a, read_only (k a)) -> read_only (bind m k).
Proof.
  intros Hm Hk h r h' H.
  apply bind_inv in H as (a & h1 & H1 & H2).
  apply Hm in H1. subst h1. now apply (Hk a) in H2.
Qed.

Lemma read_only_if {A} (c : bool) (m1 m2 : M A) :
  read_only m1 -> read_only m2 -> read_only (if c then m1 else m2).
Proof. now destruct c. Qed.

Lemma read_only_load p : read_only (load_header p).
Proof.
  intros h a h' H. unfold load_header in H.
  destruct (h !! p); [now inversion H | discriminate].
Qed.

Lemma read_only_peek p n : read_only (peek p n).
Proof.
  intros h a h' H. unfold peek in H.
  destruct p as [|base off|bs]; [discriminate | |].
  - destruct (h !! base); [|discriminate].
    destruct (read_block _ _ _); [now inversion H | discriminate].
  - destruct (read_at _ _ _); [now inversion H | discriminate].
Qed.

Create HintDb frame.
#[local] Hint Resolve read_only_ret read_only_abort read_only_fault read_only_load
  read_only_peek : frame.
#[local] Hint Extern 2 (read_only (bind _ _)) =>
  apply read_only_bind; [|intros ?] : frame.
#[local] Hint Extern 2 (read_only (if _ then _ else _)) =>
  apply read_only_if : frame.

Lemma read_only_len vec : read_only (vector_len vec).
Proof. unfold vector_len. auto 6 with frame. Qed.

Lemma read_only_capacity vec : read_only (vector_capacity vec).
Proof. unfold vector_capacity. auto 6 with frame. Qed.

Lemma read_only_element_size vec : read_only (vector_element_size vec).
Proof. unfold vector_element_size. auto 6 with frame. Qed.

Lemma read_only_at_unchecked vec index : read_only (vector_at_unchecked vec index).
Proof. unfold vector_at_unchecked. auto 6 with frame. Qed.

#[local] Hint Resolve read_only_len read_only_capacity read_only_element_size
  read_only_at_unchecked : frame.

Lemma read_only_at_mut vec index : read_only (vector_at_mut vec index).
Proof. unfold vector_at_mut. auto 6 with frame. Qed.

Lemma read_only_poke_outside p bs :
  (forall base off, p <> Elem base off) -> read_only (poke p bs).
Proof.
  intros Hp h a h' H. unfold poke in H.
  destruct p as [|base off|old]; [discriminate | now destruct (Hp base off) |].
  destruct (write_at _ _ _); [now inversion H | discriminate].
Qed.

(** A copy that returns has either nothing to copy, or has read its
    [n] bytes through the source and written them through the
    destination. *)
Lemma memcpy_writes dst src n h p h' :
  memcpy dst src n h = Ok (p, h') ->
  (n = 0 /\ p = dst /\ h' = h)
  \/ (n <> 0
      /\ exists bs, peek src n h = Ok (bs, h) /\ poke dst bs h = Ok (p, h')).
Proof.
  unfold memcpy. destruct (Z.eqb_spec n 0) as [Hz|Hnz].
  - intros H. inversion H; subst. now left.
  - destruct (overlap _ _ _); [discriminate|].
    intros H. apply bind_inv in H as (bs & h1 & H1 & H2).
    assert (h1 = h) as -> by exact (read_only_peek _ _ _ _ _ H1).
    right. split; [exact Hnz|]. now exists bs.
Qed.

(** A [vector_slice] that returns ran on a heap-backed vector and is the
    copy of its last line. *)
Lemma slice_inv vec index slice count h p h' :
  vector_slice vec index slice count h = Ok (p, h') ->
  exists b,
    h !! vector_base vec = Some b
    /\ header_of h vec = header b
    /\ stored h vec = storage b
    /\ memcpy slice (Elem (vector_base vec) (wrap (index * elementSize (header b))))
         (wrap (count * elementSize (header b))) h = Ok (p, h').
Proof.
  unfold vector_slice, header_of, stored.
  destruct (vector_base vec =? 0); [discriminate|].
  destruct (h !! vector_base vec) as [b|] eqn:Hl;
    [|unfold bind, load_header; now rewrite Hl].
  assert (Hload : load_header (vector_base vec) h = Ok (header b, h))
    by (unfold load_header; now rewrite Hl).
  cbv beta iota. rewrite (bind_ok _ _ _ _ _ Hload).
  destruct (_ >? _); [discriminate|]. cbv beta iota.
  assert (Hat : vector_at_unchecked vec index h
                = Ok (Elem (vector_base vec) (wrap (index * elementSize (header b))), h))
    by (unfold vector_at_unchecked; now rewrite (bind_ok _ _ _ _ _ Hload)).
  rewrite (bind_ok _ _ _ _ _ Hat).
  rewrite (bind_ok _ _ _ _ _ Hload).
  intros H. now exists b.
Qed.

(** C10 (amended): [vector_len], [vector_capacity], [vector_element_size],
    [vector_is_empty], [vector_first], [vector_last], [vector_at] and
    [vector_at_mut] leave the whole heap as it is.  A [vector_slice] that
    returns has changed nothing but the [count * elementSize] bytes from its
    destination pointer on, which now hold the bytes of the elements from
    [index] on: for a destination in memory of the caller the heap is as it
    was; for a destination inside a block, every other block is as it was
    and the bytes of that block are those before with the copied bytes in
    the place of the ones at the destination.  These are stored element
    bytes, and the header fields are as before, when the destination
    points into the storage; they are bytes of the header when it points
    there. *)
Theorem readers_frame vec index slice count :
  read_only (vector_len vec)
  /\ read_only (vector_capacity vec)
  /\ read_only (vector_element_size vec)
  /\ read_only (vector_is_empty vec)
  /\ read_only (vector_first vec)
  /\ read_only (vector_last vec)
  /\ read_only (vector_at vec index)
  /\ read_only (vector_at_mut vec index)
  /\ (forall h p h',
        vector_slice vec index slice count h = Ok (p, h') ->
        let hd := header_of h vec in
        let n := wrap (count * elementSize hd) in
        (n = 0 /\ p = slice /\ h' = h)
        \/ exists bs,
            read_at (stored h vec) (wrap (index * elementSize hd)) n = Some bs
            /\ match slice with
               | NULL => False
               | Caller old => p = Caller (bs ++ drop (Z.to_nat n) old) /\ h' = h
               | Elem base off =>
                   p = slice
                   /\ (forall q, q <> base -> h' !! q = h !! q)
                   /\ exists b b',
                       h !! base = Some b
                       /\ h' !! base = Some b'
                       /\ - sizeof_header <= off
                       /\ sizeof_header + off + n <= zlen (image b)
                       /\ image b'
                          = splice (image b) (Z.to_nat (sizeof_header + off)) bs
                       /\ (0 <= off -> header b' = header b)
               end).
Proof.
  split; [apply read_only_len|].
  split; [apply read_only_capacity|].
  split; [apply read_only_element_size|].
  split; [unfold vector_is_empty; auto 6 with frame|].
  split; [apply read_only_at_mut|].
  split; [unfold vector_last; auto 6 with frame|].
  split; [apply read_only_at_mut|].
  split; [apply read_only_at_mut|].
  intros h p h' H hd n.
  apply slice_inv in H as (bv & Hlv & Hhd & Hst & H).
  unfold n, hd. rewrite Hhd, Hst. clear n hd.
  apply memcpy_writes in H as [H | (Hnz & bs & Hpeek & Hpoke)]; [now left|].
  right. exists bs.
  assert (Hlen := peek_length _ _ _ _ _ Hpeek).
  split.
  - unfold peek in Hpeek. rewrite Hlv in Hpeek.
    rewrite read_block_storage in Hpeek by apply wrap_range.
    destruct (read_at _ _ _) as [r|]; [|discriminate].
    inversion Hpeek. reflexivity.
  - destruct slice as [|base off|old].
    + discriminate.
    + apply poke_block in Hpoke as (b & b' & Hl & Hw & -> & ->).
      split; [reflexivity|].
      split; [intros q Hq; now apply lookup_insert_ne|].
      exists b, b'. split; [exact Hl|]. split; [apply lookup_insert_eq|].
      apply write_block_image in Hw as (Hlo & Hfit & Himg & Hkeep).
      rewrite Hlen in Hfit. now repeat split.
    + unfold poke in Hpoke.
      destruct (write_at _ _ _) as [new|] eqn:Hw; [|discriminate].
      apply write_at_inv in Hw as (_ & _ & ->).
      inversion Hpoke; subst. split; [|reflexivity].
      unfold splice. simpl. do 3 f_equal. lia.
Qed.

(** C10 as stated fails: a slice whose destination is the vector's own
    first two elements overwrites them with the third and fourth. *)
Lemma slice_into_own_storage :
  vector_slice 16 2 (Elem 16 0) 2 heap_four
  = Ok (Elem 16 0, {[ 16 := Block (Header 4 4 1) [x03; x04; x03; x04] ]})
  /\ ~ read_only (vector_slice 16 2 (Elem 16 0) 2).
Proof.
  assert (E : vector_slice 16 2 (Elem 16 0) 2 heap_four
              = Ok (Elem 16 0, {[ 16 := Block (Header 4 4 1) [x03; x04; x03; x04] ]}))
    by (vm_compute; reflexivity).
  split; [exact E|].
  intros Hro. apply Hro in E.
  apply (f_equal (fun m : heap => storage <$> (m !! 16))) in E.
  vm_compute in E. discriminate.
Qed.

(** A slice whose destination is the handle itself, cast to a pointer,
    writes the first element over the lowest byte of [capacity]: the vector
    holding 1, 2, 3 in a capacity of 4 is left with length 3 and
    capacity 1. *)
Lemma slice_into_own_header :
  let h' : heap := {[ 16 := Block (Header 1 3 1) [x01; x02; x03; xaa] ]} in
  vector_slice 16 0 (Elem 16 (- sizeof_header)) 1 heap_three
  = Ok (Elem 16 (- sizeof_header), h')
  /\ vector_capacity 16 h' = Ok (1, h')
  /\ ~ bounded h' 16.
Proof.
  intros h'. split; [vm_compute; reflexivity|].
  split; [vm_compute; reflexivity|].
  unfold bounded. vm_compute. intros H. now apply H.
Qed.

(** A slice of the vector holding 1, 2, 3 into the storage of the vector
    next to it. *)
Lemma readers_frame_witness :
  exists h' b',
    vector_slice 16 0 (Elem 48 0) 2 heap_pair = Ok (Elem 48 0, h')
    /\ h' !! 16 = Some three
    /\ h' !! 48 = Some b'
    /\ header b' = header pair
    /\ image b' = header_bytes (header pair) ++ [x01; x02].
Proof.
  destruct (readers_frame 16 0 (Elem 48 0) 2) as (_ & _ & _ & _ & _ & _ & _ & _ & H).
  assert (Hrun : exists h', vector_slice 16 0 (Elem 48 0) 2 heap_pair
                            = Ok (Elem 48 0, h'))
    by (eexists; vm_compute; reflexivity).
  destruct Hrun as (h' & Hrun).
  destruct (H _ _ _ Hrun) as [(Hn & _) | (bs & Hread & _ & Hfr & b & b' & Hl & Hl' & _ & _ & Himg & Hhd)].
  - vm_compute in Hn. discriminate.
  - exists h', b'. split; [exact Hrun|].
    split; [rewrite Hfr by discriminate; reflexivity|].
    split; [exact Hl'|].
    assert (b = pair) as -> by (vm_compute in Hl; now inversion Hl).
    assert (bs = [x01; x02]) as -> by (vm_compute in Hread; now inversion Hread).
    split; [apply Hhd; lia|].
    rewrite Himg. vm_compute. reflexivity.
Defined.

(** ** Moves inside one block *)

Lemma write_back s off n r : read_at s off n = Some r -> write_at s off r = Some s.
Proof.
  intros H. assert (Hl := read_at_length _ _ _ _ H).
  unfold read_at in H. destruct (_ && _) eqn:E; [|discriminate].
  inversion H; subst r. clear H.
  apply andb_true_iff in E as (E & E3). apply andb_true_iff in E as (E1 & E2).
  apply Z.leb_le in E1, E2, E3.
  unfold write_at.
  replace ((0 <=? off) && (off + _ <=? zlen s)) with true
    by (symmetry; apply andb_true_iff; split; apply Z.leb_le; lia).
  f_equal. unfold splice.
  replace (Datatypes.length (take (Z.to_nat n) (drop (Z.to_nat off) s)))
    with (Z.to_nat n) by lia.
  rewrite <- drop_drop, (take_drop (Z.to_nat n)). apply take_drop.
Qed.

Lemma block_eta b : Block (header b) (storage b) = b.
Proof. now destruct b. Qed.

Lemma header_eta hd : Header (capacity hd) (length hd) (elementSize hd) = hd.
Proof. now destruct hd. Qed.

Lemma insert_same h vec b : backed h vec b -> <[vec := b]> h = h.
Proof. intros (_ & _ & Hl). now apply insert_id. Qed.

(** Moving a range onto itself changes nothing. *)
Lemma memmove_same h vec b off n :
  backed h vec b ->
  0 <= off -> 0 <= n -> off + n <= zlen (storage b) ->
  memmove (Elem vec off) (Elem vec off) n h = Ok (Elem vec off, h).
Proof.
  intros Hb H0 Hn Hfit. unfold memmove.
  destruct (n =? 0); [reflexivity|].
  assert (Hr : exists r, read_at (storage b) off n = Some r).
  { unfold read_at.
    replace ((0 <=? off) && (0 <=? n) && (off + n <=? zlen (storage b))) with true; eauto.
    symmetry. repeat (apply andb_true_iff; split); apply Z.leb_le; lia. }
  destruct Hr as (r & Hr).
  destruct Hb as (He & Hnz & Hl).
  assert (Hpeek : peek (Elem vec off) n h = Ok (r, h))
    by (unfold peek; rewrite Hl, read_block_storage by lia; now rewrite Hr).
  rewrite (bind_ok _ _ _ _ _ Hpeek).
  unfold poke. rewrite Hl, write_block_storage by lia.
  rewrite (write_back _ _ _ _ Hr).
  rewrite block_eta, insert_id; trivial.
Qed.

(** ** Reserving when the room is there *)

Lemma reserve_fits alloc h vec b extra :
  backed h vec b ->
  wrap (length (header b) + extra) <= capacity (header b) ->
  vector_reserve alloc vec extra h = Ok (vec, h).
Proof.
  intros Hb Hfit. unfold vector_reserve.
  rewrite (bind_ok _ _ _ _ _ (run_len Hb)).
  rewrite (bind_ok _ _ _ _ _ (run_capacity Hb)).
  now replace (_ <=? _) with true by (symmetry; now apply Z.leb_le).
Qed.

Lemma store_same_length h vec b :
  backed h vec b -> store_length vec (length (header b)) h = Ok (tt, h).
Proof.
  intros Hb. rewrite (run_store_length _ _ _ _ Hb).
  now rewrite header_eta, block_eta, (insert_same _ _ _ Hb).
Qed.

(** ** Zero-count operations *)

(** C2 (amended): on a heap-backed, well-formed vector and for
    [index <= length], a [vector_push], [vector_remove] or [vector_slice] of
    zero elements returns and leaves the heap, hence length, capacity and
    contents, as it was, whatever the buffer pointer is (null included);
    so does a [vector_insert] of zero elements at [index = length], or at
    an index from which [length - 1] elements still lie within the
    capacity. *)
Theorem zero_count_is_noop alloc h vec b index p :
  backed h vec b ->
  well_formed b ->
  0 <= index <= length (header b) ->
  vector_push alloc vec p 0 h = Ok (vec, h)
  /\ vector_remove vec index 0 h = Ok (tt, h)
  /\ vector_slice vec index p 0 h = Ok (p, h)
  /\ (index = length (header b)
      \/ index + (length (header b) - 1) <= capacity (header b) ->
      vector_insert alloc vec index p 0 h = Ok (vec, h)).
Proof.
  intros Hb [Hlen Hes Hroom Hcap Hst] Hi.
  assert (Hm := modulus_eq). unfold sizeof_header, sizeof_word in Hroom.
  set (len := length (header b)) in *. set (es := elementSize (header b)) in *.
  set (cap := capacity (header b)) in *.
  assert (Hins : forall i, 0 <= i <= len -> (i = len \/ i + (len - 1) <= cap) ->
                   vector_insert alloc vec i p 0 h = Ok (vec, h)).
  { intros i Hi' Hmove. unfold vector_insert.
    rewrite (bind_ok _ _ _ _ _ (reserve_fits alloc h vec b 0 Hb ltac:(fold len cap; rewrite Z.add_0_r, wrap_small; lia))).
    rewrite (base_backed Hb), (nonnull_backed Hb).
    rewrite (bind_ok _ _ _ _ _ (run_load Hb)). fold len.
    rewrite gtb_le by lia.
    rewrite (bind_ok _ _ _ _ _ (run_at_unchecked Hb _)). fold es.
    assert (Hmv : (if i <? len
                   then let* to := vector_at_unchecked vec (wrap (i + 0)) in
                        let* hd := load_header vec in
                        memmove to (Elem vec (wrap (i * es)))
                          (wrap (wrap (wrap (length hd - 1) - 0) * elementSize hd));;
                        ret tt
                   else ret tt) h = Ok (tt, h)).
    { destruct (Z.ltb_spec i len) as [Hlt|Hge]; [|reflexivity].
      destruct Hmove as [->|Hmove]; [lia|].
      rewrite (bind_ok _ _ _ _ _ (run_at_unchecked Hb _)). fold es.
      rewrite (bind_ok _ _ _ _ _ (run_load Hb)). fold len es.
      rewrite Z.add_0_r, Z.sub_0_r.
      rewrite (wrap_small i), !(wrap_small (len - 1)), (wrap_small (i * es)),
        (wrap_small ((len - 1) * es)) by nia.
      assert (Hfit : i * es + (len - 1) * es <= zlen (storage b))
        by (rewrite Hst; fold cap es; nia).
      rewrite (bind_ok _ _ _ _ _
                 (memmove_same h vec b (i * es) ((len - 1) * es) Hb
                    ltac:(nia) ltac:(nia) Hfit)).
      reflexivity. }
    rewrite (bind_ok _ _ _ _ _ Hmv).
    rewrite (bind_ok _ _ _ _ _ (run_load Hb)).
    rewrite Z.mul_0_l, wrap_0. unfold memcpy. simpl (0 =? 0).
    rewrite (bind_ok _ _ _ _ _ eq_refl).
    rewrite (bind_ok _ _ _ _ _ (run_load Hb)). fold len.
    rewrite Z.add_0_r, (wrap_small len) by lia.
    now rewrite (bind_ok _ _ _ _ _ (store_same_length _ _ _ Hb)). }
  split; [|split; [|split]].
  - unfold vector_push. rewrite (bind_ok _ _ _ _ _ (run_len Hb)).
    apply Hins; [fold len; lia | now left].
  - unfold vector_remove.
    rewrite (base_backed Hb), (nonnull_backed Hb).
    rewrite (bind_ok _ _ _ _ _ (run_len Hb)). fold len.
    rewrite Z.add_0_r, (wrap_small index) by lia.
    rewrite gtb_le by lia.
    rewrite (bind_ok _ _ _ _ _ (run_at_unchecked Hb _)).
    rewrite (bind_ok _ _ _ _ _ (run_at_unchecked Hb _)).
    rewrite (bind_ok _ _ _ _ _ (run_load Hb)). fold len es.
    rewrite Z.sub_0_r.
    rewrite !(wrap_small (len - index)), (wrap_small (index * es)),
      (wrap_small ((len - index) * es)) by nia.
    assert (Hfit : index * es + (len - index) * es <= zlen (storage b))
      by (rewrite Hst; fold cap es; nia).
    rewrite (bind_ok _ _ _ _ _
               (memmove_same h vec b (index * es) ((len - index) * es) Hb
                  ltac:(nia) ltac:(nia) Hfit)).
    rewrite (bind_ok _ _ _ _ _ (run_load Hb)). fold len.
    rewrite Z.sub_0_r, (wrap_small len) by lia.
    now apply store_same_length.
  - unfold vector_slice.
    rewrite (base_backed Hb), (nonnull_backed Hb).
    rewrite (bind_ok _ _ _ _ _ (run_load Hb)). fold len.
    rewrite Z.add_0_r, (wrap_small index) by lia.
    rewrite gtb_le by lia.
    rewrite (bind_ok _ _ _ _ _ (run_at_unchecked Hb _)).
    rewrite (bind_ok _ _ _ _ _ (run_load Hb)).
    rewrite Z.mul_0_l, wrap_0. reflexivity.
  - apply Hins. lia.
Qed.

Lemma zero_count_is_noop_witness :
  vector_push bump 16 NULL 0 heap_three = Ok (16, heap_three)
  /\ vector_remove 16 1 0 heap_three = Ok (tt, heap_three)
  /\ vector_slice 16 1 NULL 0 heap_three = Ok (NULL, heap_three)
  /\ vector_insert bump 16 1 NULL 0 heap_three = Ok (16, heap_three).
Proof.
  destruct (zero_count_is_noop bump heap_three 16 three 1 NULL
              backed_three well_formed_three ltac:(simpl; lia))
    as (H1 & H2 & H3 & H4).
  split; [exact H1 | split; [exact H2 | split; [exact H3 |]]].
  apply H4. right. simpl. lia.
Defined.

(** C2 as stated fails: with a count of zero, an index beyond the length
    makes [vector_insert], [vector_remove] and [vector_slice] abort, and so
    does every one of the four operations on the tagged-empty form (here
    the handle 9 that [vector_new(0, 4)] returns). *)
Lemma zero_count_aborts :
  vector_insert bump 16 4 NULL 0 heap_three = Abort
  /\ vector_remove 16 4 0 heap_three = Abort
  /\ vector_slice 16 4 NULL 0 heap_three = Abort
  /\ vector_new bump 0 4 ∅ = Ok (9, ∅)
  /\ vector_insert bump 9 0 NULL 0 ∅ = Abort
  /\ vector_push bump 9 NULL 0 ∅ = Abort
  /\ vector_remove 9 0 0 ∅ = Abort
  /\ vector_slice 9 0 NULL 0 ∅ = Abort.
Proof. repeat split; vm_compute; reflexivity. Qed.

(** ** Growth *)

Lemma update_at h p b f :
  h !! p = Some b ->
  update_header f p h = Ok (tt, <[p := Block (f (header b)) (storage b)]> h).
Proof. intros Hl. unfold update_header. now rewrite Hl. Qed.

(** The three assignments that fill in the header of a block. *)
Lemma run_fill_header h p b len cap es :
  h !! p = Some b ->
  (store_length p len;; store_capacity p cap;; store_elementSize p es;; ret p) h
  = Ok (p, <[p := Block (Header cap len es) (storage b)]> h).
Proof.
  intros Hl. unfold store_length, store_capacity, store_elementSize.
  rewrite (bind_ok _ _ _ _ _ (update_at _ _ _ _ Hl)).
  rewrite (bind_ok _ _ _ _ _ (update_at _ _ _ _ (lookup_insert_eq _ _ _))).
  rewrite (bind_ok _ _ _ _ _ (update_at _ _ _ _ (lookup_insert_eq _ _ _))).
  unfold ret. simpl. now rewrite !insert_insert_eq.
Qed.

Lemma resize_grow n old junk :
  (Datatypes.length old <= n)%nat ->
  resize n old junk
  = old ++ map junk (seq (Datatypes.length old) (n - Datatypes.length old)).
Proof. intros H. unfold resize. now rewrite take_ge. Qed.

Lemma length_resize n old junk : Datatypes.length (resize n old junk) = n.
Proof.
  unfold resize. rewrite length_app, length_take, length_map, length_seq. lia.
Qed.

(** What a successful [realloc] of a handle's block leaves: at the new
    address a block of the size asked for that starts with the bytes
    stored before, and every other block as it was. *)
Lemma realloc_keeps alloc h vec size p h1 :
  valid h vec ->
  sizeof_header + zlen (stored h vec) <= size ->
  realloc alloc (vector_base vec) size h = Ok (p, h1) ->
  p <> 0 ->
  exists hd st,
    h1 !! p = Some (Block hd st)
    /\ stored h vec `prefix_of` st
    /\ zlen st = size - sizeof_header
    /\ (forall q, q <> p -> q <> vec -> h1 !! q = h !! q).
Proof.
  intros [(Ht & _) | (b & Hb & Hwf)] Hsize.
  - unfold stored, realloc in *. rewrite (vector_base_tagged _ Ht) in *. simpl in *.
    unfold malloc. destruct (alloc h size) as [f|].
    + destruct (size <? sizeof_header); [discriminate|].
      intros H _. inversion H; subst. eexists _, _.
      split; [apply lookup_insert_eq|]. split; [apply prefix_nil|].
      split; [rewrite length_resize; lia|].
      intros q Hq _. now apply lookup_insert_ne.
    + intros H Hp. inversion H; subst. now destruct Hp.
  - unfold stored, realloc in *.
    rewrite (base_backed Hb), (nonnull_backed Hb) in *.
    destruct Hb as (_ & _ & Hl). rewrite Hl in *.
    destruct (alloc (delete vec h) size) as [f|].
    + destruct (size <? sizeof_header); [discriminate|].
      intros H _. inversion H; subst. eexists _, _.
      split; [apply lookup_insert_eq|].
      split; [rewrite resize_grow by lia; now apply prefix_app_r|].
      split; [rewrite length_resize; lia|].
      intros q Hq Hq'. rewrite lookup_insert_ne by congruence.
      now apply lookup_delete_ne.
    + intros H Hp. inversion H; subst. now destruct Hp.
Qed.

(** What the readers return on a valid handle, as functions of the heap. *)
Lemma readers_of_valid h vec :
  valid h vec ->
  vector_len vec h = Ok (length (header_of h vec), h)
  /\ vector_capacity vec h = Ok (capacity (header_of h vec), h)
  /\ vector_element_size vec h = Ok (elementSize (header_of h vec), h).
Proof.
  intros [(Ht & _) | (b & Hb & _)]; unfold header_of.
  - rewrite (vector_base_tagged _ Ht). simpl.
    rewrite (run_len_tagged Ht), (run_capacity_tagged Ht), (run_element_size_tagged Ht).
    now repeat split.
  - rewrite (base_backed Hb), (nonnull_backed Hb).
    rewrite (run_len Hb), (run_capacity Hb), (run_element_size Hb).
    destruct Hb as (_ & _ & Hl). rewrite Hl. now repeat split.
Qed.

(** The layout facts of a valid handle. *)
Lemma layout_of_valid h vec :
  valid h vec ->
  0 <= length (header_of h vec) <= capacity (header_of h vec)
  /\ capacity (header_of h vec) < modulus
  /\ 0 <= elementSize (header_of h vec)
  /\ zlen (stored h vec)
     = capacity (header_of h vec) * elementSize (header_of h vec).
Proof.
  intros [(Ht & Hvec) | (b & Hb & Hwf)]; unfold header_of, stored.
  - rewrite (vector_base_tagged _ Ht). simpl. rewrite modulus_eq.
    repeat split; try lia. apply Z.shiftr_nonneg, Hvec.
  - rewrite (base_backed Hb), (nonnull_backed Hb).
    destruct Hb as (_ & _ & Hl). rewrite Hl. destruct Hwf. now repeat split.
Qed.


(** [vector_reserve] when the room is missing. *)
Lemma reserve_run alloc h vec extra p h1 :
  valid h vec ->
  is_size extra ->
  let hd := header_of h vec in
  let newCapacity := capacity hd + capacity hd / 2 * 3 + extra in
  let size := sizeof_header + newCapacity * elementSize hd in
  capacity hd < length hd + extra ->
  newCapacity < modulus ->
  size < modulus ->
  realloc alloc (vector_base vec) size h = Ok (p, h1) ->
  if p =? 0 then vector_reserve alloc vec extra h = Abort
  else exists hd1 st,
      h1 !! p = Some (Block hd1 st)
      /\ stored h vec `prefix_of` st
      /\ zlen st = newCapacity * elementSize hd
      /\ (forall q, q <> p -> q <> vec -> h1 !! q = h !! q)
      /\ vector_reserve alloc vec extra h
         = Ok (p, <[p := Block (Header newCapacity (length hd) (elementSize hd)) st]> h1).
Proof.
  intros Hv Hx hd newCapacity size Hgrow HnewCap Hsize Hre.
  assert (Hm := modulus_eq). unfold is_size in Hx.
  destruct (readers_of_valid _ _ Hv) as (Hlen & Hcap & Hes).
  destruct (layout_of_valid _ _ Hv) as (Hle & Hcapm & Hes0 & Hst).
  fold hd in Hlen, Hcap, Hes, Hle, Hcapm, Hes0, Hst.
  set (len := length hd) in *. set (cap := capacity hd) in *.
  set (es := elementSize hd) in *.
  assert (Hdiv : 0 <= cap / 2 * 3)
    by (assert (0 <= cap / 2) by (apply Z.div_pos; lia); lia).
  assert (Hsz : sizeof_header = 24) by reflexivity.
  assert (Hprod : 0 <= newCapacity * es) by (subst newCapacity; nia).
  assert (Hrun : vector_reserve alloc vec extra h
                 = (if p =? 0 then abort
                    else store_length p len;; store_capacity p newCapacity;;
                         store_elementSize p es;; ret p) h1).
  { unfold vector_reserve.
    rewrite (bind_ok _ _ _ _ _ Hlen), (bind_ok _ _ _ _ _ Hcap).
    rewrite (wrap_small (len + extra)) by (subst newCapacity; lia).
    replace (_ <=? _) with false by (symmetry; apply Z.leb_gt; lia).
    rewrite (bind_ok _ _ _ _ _ Hes).
    rewrite (wrap_small (cap / 2 * 3)) by (subst newCapacity; lia).
    rewrite (wrap_small (cap + cap / 2 * 3)) by (subst newCapacity; lia).
    rewrite (wrap_small (cap + cap / 2 * 3 + extra)) by (subst newCapacity; lia).
    fold newCapacity.
    rewrite (wrap_small (newCapacity * es)) by (subst size; lia).
    rewrite (wrap_small (sizeof_header + newCapacity * es)) by (subst size; lia).
    fold size. now rewrite (bind_ok _ _ _ _ _ Hre). }
  destruct (Z.eqb_spec p 0) as [E|E]; [exact Hrun|].
  destruct (realloc_keeps alloc h vec size p h1 Hv) as (hd1 & st & Hl & Hpre & Hsize' & Hfr);
    trivial.
  { rewrite Hst. subst size newCapacity. nia. }
  exists hd1, st. repeat split; trivial.
  - rewrite Hsize'. subst size. lia.
  - rewrite Hrun. exact (run_fill_header h1 p (Block hd1 st) len newCapacity es Hl).
Qed.




(** When the allocator fails, construction and growth abort. *)
Lemma allocation_failure_aborts :
  vector_new no_memory 10 4 ∅ = Abort
  /\ vector_reserve no_memory 16 5 heap_three = Abort
  /\ vector_push no_memory 9 (Caller (ints [1]%N)) 1 ∅ = Abort.
Proof. repeat split; vm_compute; reflexivity. Qed.

(** ** Where the code departs from its documentation *)

(** C1: inserting in the middle loses the tail.  The vector holds 1, 2, 3
    in a capacity of 4; inserting 9 at index 1 must leave 1, 9, 2, 3.  The
    code moves [length - 1 - count = 1] element instead of
    [length - index = 2], so the last slot keeps the byte [0xaa] that the
    storage held there and the 3 is lost. *)
Theorem insert_loses_tail :
  exists b',
    vector_insert bump 16 1 (Caller [x09]) 1 heap_three = Ok (16, {[ 16 := b' ]})
    /\ header b' = Header 4 4 1
    /\ contents b' = [x01; x09; x02; xaa]
    /\ contents b' <> [x01] ++ [x09] ++ [x02; x03].
Proof.
  eexists. split; [vm_compute; reflexivity|].
  repeat split. vm_compute. discriminate.
Qed.

(** The same defect with more elements than the vector holds: inserting
    3 elements at the front of the vector holding 1, 2, 3 (grown to a
    capacity of 13) asks [memmove] for [(3 - 1 - 3) * 1] bytes, which wraps
    around to [SIZE_MAX]: the move leaves the block. *)
Lemma insert_many_leaves_block :
  vector_insert bump 16 0 (Caller [x07; x08; x09]) 3 heap_three = Fault.
Proof. vm_compute. reflexivity. Qed.

(** C4: [vector_new(0, 2^63)].  The element size [2^63] does not fit in the
    63 bits above the tag, yet it passes the test against
    [MAX_ZERO_CAPACITY_ELEMENT_SIZE]: no block is allocated, the handle is
    1, and the element size read back from it is 0. *)
Theorem new_drops_element_size :
  vector_new bump 0 (2 ^ 63) ∅ = Ok (1, ∅)
  /\ vector_element_size 1 ∅ = Ok (0, ∅)
  /\ ~ (2 ^ 63 < 2 ^ (word_bits - 1)).
Proof. repeat split; vm_compute; congruence. Qed.

(** C5: [vector_remove(v, SIZE_MAX, 4)] on the vector holding 1, 2, 3.  The
    range is far out of bounds, but [index + count] wraps around to 3,
    which the test against the length lets through: nothing aborts, no
    byte moves, and the length becomes [3 - 4], that is [SIZE_MAX]. *)
Theorem remove_misses_overflow :
  2 ^ 64 - 1 + 4 > length (header three)
  /\ vector_remove 16 (2 ^ 64 - 1) 4 heap_three
     = Ok (tt, {[ 16 := Block (Header 4 (2 ^ 64 - 1) 1) (storage three) ]}).
Proof. split; vm_compute; reflexivity. Qed.

(** C6: extending a vector in tagged-empty form by a vector that has
    storage but no elements.  Both have element size 4, so the specification wants
    the first to keep length 0; the code pushes zero elements, and
    [vector_insert] aborts because the first vector still has no block. *)
Theorem extend_by_empty_aborts :
  (let* a := vector_new bump 0 4 in
   let* b := vector_new bump 10 4 in
   let* ea := vector_element_size a in
   let* eb := vector_element_size b in
   let* n := vector_len b in
   ret (ea, eb, n)) ∅ = Ok ((4, 4, 0), {[ 16 := Block (Header 10 0 4) (repeat xaa 40) ]})
  /\ (let* a := vector_new bump 0 4 in
      let* b := vector_new bump 10 4 in
      vector_extend bump a b) ∅ = Abort.
Proof. split; vm_compute; reflexivity. Qed.

(** C8: the run of [remove_misses_overflow] starts from a vector with
    [length <= capacity] and ends, without aborting, in one whose length
    [SIZE_MAX] exceeds its capacity 4. *)
Theorem remove_breaks_length_bound :
  well_formed three
  /\ exists h',
      vector_remove 16 (2 ^ 64 - 1) 4 heap_three = Ok (tt, h')
      /\ vector_len 16 h' = Ok (2 ^ 64 - 1, h')
      /\ vector_capacity 16 h' = Ok (4, h').
Proof.
  split; [apply well_formed_three|].
  eexists. repeat split; vm_compute; reflexivity.
Qed.

(** ** Removal inside the bounds *)

Lemma run_peek h base b off n :
  h !! base = Some b ->
  0 <= off -> 0 <= n -> off + n <= zlen (storage b) ->
  peek (Elem base off) n h
  = Ok (take (Z.to_nat n) (drop (Z.to_nat off) (storage b)), h).
Proof.
  intros Hl H0 Hn Hfit. unfold peek. rewrite Hl, read_block_storage by lia.
  unfold read_at.
  replace ((0 <=? off) && (0 <=? n) && (off + n <=? zlen (storage b))) with true;
    [reflexivity|].
  symmetry. repeat (apply andb_true_iff; split); apply Z.leb_le; lia.
Qed.

Lemma run_poke h base b off bs :
  h !! base = Some b ->
  0 <= off -> off + zlen bs <= zlen (storage b) ->
  poke (Elem base off) bs h
  = Ok (Elem base off,
        <[base := Block (header b) (splice (storage b) (Z.to_nat off) bs)]> h).
Proof.
  intros Hl H0 Hfit. unfold poke. rewrite Hl, write_block_storage by lia.
  unfold write_at.
  replace ((0 <=? off) && (off + zlen bs <=? zlen (storage b))) with true;
    [reflexivity|].
  symmetry. apply andb_true_iff; split; apply Z.leb_le; lia.
Qed.

(** A move inside the storage of one block. *)
Lemma run_memmove h vec b dst src n :
  backed h vec b ->
  0 <= dst -> 0 <= src -> 0 <= n ->
  src + n <= zlen (storage b) -> dst + n <= zlen (storage b) ->
  memmove (Elem vec dst) (Elem vec src) n h
  = Ok (Elem vec dst,
        <[vec := Block (header b)
                   (splice (storage b) (Z.to_nat dst)
                      (take (Z.to_nat n) (drop (Z.to_nat src) (storage b))))]> h).
Proof.
  intros Hb Hd Hs Hn Hsrc Hdst. unfold memmove.
  destruct (Z.eqb_spec n 0) as [->|Hnz].
  - unfold ret, splice. simpl. rewrite Nat.add_0_r, take_drop, block_eta.
    now rewrite (insert_same _ _ _ Hb).
  - destruct Hb as (_ & _ & Hl).
    rewrite (bind_ok _ _ _ _ _ (run_peek _ _ _ _ _ Hl Hs Hn Hsrc)).
    apply run_poke; trivial.
    rewrite length_take, length_drop. lia.
Qed.

(** X2 (C5 inside the bounds): when [index + count <= length], [vector_remove]
    returns; the vector then holds the bytes before [index] followed by
    the bytes from [index + count] on, its length is down by [count], and
    capacity, element size and handle are as before. *)
Theorem remove_closes_gap h vec b index count :
  backed h vec b ->
  well_formed b ->
  0 <= index -> 0 <= count ->
  index + count <= length (header b) ->
  exists b',
    vector_remove vec index count h = Ok (tt, <[vec := b']> h)
    /\ header b'
       = Header (capacity (header b)) (length (header b) - count)
           (elementSize (header b))
    /\ contents b'
       = take (Z.to_nat (index * elementSize (header b))) (contents b)
         ++ drop (Z.to_nat ((index + count) * elementSize (header b))) (contents b)
    /\ well_formed b'.
Proof.
  intros Hb [Hlen Hes Hroom Hcap Hst] Hi Hc Hrange.
  assert (Hm := modulus_eq). unfold sizeof_header, sizeof_word in Hroom.
  unfold contents.
  set (len := length (header b)) in *. set (es := elementSize (header b)) in *.
  set (cap := capacity (header b)) in *. set (st := storage b) in *.
  set (n := (len - index - count) * es).
  set (st' := splice st (Z.to_nat (index * es))
                (take (Z.to_nat n) (drop (Z.to_nat ((index + count) * es)) st))).
  assert (Hn : 0 <= n) by (subst n; nia).
  assert (Hsum : index * es + n = (len - count) * es) by (subst n; nia).
  assert (Hsrc : (index + count) * es + n = len * es) by (subst n; nia).
  assert (Hle : len * es <= cap * es) by nia.
  assert (Hmid : Datatypes.length
                   (take (Z.to_nat n) (drop (Z.to_nat ((index + count) * es)) st))
                 = Z.to_nat n)
    by (rewrite length_take, length_drop; nia).
  exists (Block (Header cap (len - count) es) st').
  split; [|split; [reflexivity | split]].
  - unfold vector_remove.
    rewrite (base_backed Hb), (nonnull_backed Hb).
    rewrite (bind_ok _ _ _ _ _ (run_len Hb)). fold len.
    rewrite (wrap_small (index + count)) by lia.
    rewrite gtb_le by lia.
    rewrite (bind_ok _ _ _ _ _ (run_at_unchecked Hb _)).
    rewrite (bind_ok _ _ _ _ _ (run_at_unchecked Hb _)).
    rewrite (bind_ok _ _ _ _ _ (run_load Hb)). fold len es.
    rewrite (wrap_small (len - index)) by lia.
    rewrite (wrap_small (len - index - count)) by lia.
    fold n. rewrite (wrap_small n), (wrap_small (index * es)),
      (wrap_small ((index + count) * es)) by nia.
    rewrite (bind_ok _ _ _ _ _
               (run_memmove h vec b (index * es) ((index + count) * es) n Hb
                  ltac:(nia) ltac:(nia) Hn ltac:(fold st; nia) ltac:(fold st; nia))).
    fold st st'.
    rewrite (bind_ok _ _ _ _ _ (run_load (backed_insert _ _ _ _ Hb))).
    rewrite (run_store_length _ _ _ _ (backed_insert _ _ _ _ Hb)).
    simpl. fold len cap es. rewrite (wrap_small (len - count)) by lia.
    now rewrite insert_insert_eq.
  - simpl. fold len es. unfold st', splice.
    rewrite Hmid, app_assoc.
    rewrite take_app_length' by (rewrite length_app, length_take, Hmid; nia).
    rewrite take_take.
    replace (Z.to_nat (index * es) `min` Z.to_nat (len * es))%nat
      with (Z.to_nat (index * es)) by nia.
    f_equal.
    rewrite take_drop_commute. f_equal. f_equal. nia.
  - constructor; simpl; fold len cap es; try lia.
    + unfold sizeof_header, sizeof_word. lia.
    + unfold st'. rewrite length_splice by (rewrite Hmid; fold st in Hst; nia).
      exact Hst.
Qed.

Lemma remove_closes_gap_witness :
  exists b',
    vector_remove 16 1 1 heap_three = Ok (tt, <[16 := b']> heap_three)
    /\ header b' = Header 4 2 1
    /\ contents b' = [x01; x03]
    /\ well_formed b'.
Proof.
  apply (remove_closes_gap heap_three 16 three 1 1
           backed_three well_formed_three); simpl; lia.
Defined.

(** ** Construction *)

Lemma max_zero_capacity_eq : MAX_ZERO_CAPACITY_ELEMENT_SIZE = 2 ^ 63.
Proof. reflexivity. Qed.

(** The tagged encoding of an element size of at most 63 bits, and what
    the readers recover from it. *)
Lemma tag_encodes es :
  0 <= es < 2 ^ 63 ->
  let vec := Z.lor (wrap (Z.shiftl es 1)) 1 in
  vec = 2 * es + 1 /\ tagged vec /\ Z.shiftr vec 1 = es.
Proof.
  intros H. assert (Hm := modulus_eq).
  assert (Hw : wrap (Z.shiftl es 1) = 2 * es).
  { rewrite Z.shiftl_mul_pow2 by lia. rewrite wrap_small; lia. }
  simpl. rewrite Hw.
  destruct es as [|p|p]; [repeat split; discriminate | | lia].
  repeat split. discriminate.
Qed.

Lemma land_1_mod a : Z.land a 1 = a mod 2.
Proof. change 1 with (Z.ones 1) at 1. now rewrite Z.land_ones. Qed.

(** The allocating branch of [vector_new]. *)
Lemma new_allocates alloc h initialCapacity elementSize vec h' :
  aligned alloc ->
  (let* base := malloc alloc (wrap (sizeof_header + wrap (initialCapacity * elementSize))) in
   if base =? 0 then abort else
   store_capacity base initialCapacity;;
   store_length base 0;;
   store_elementSize base elementSize;;
   ret base) h = Ok (vec, h') ->
  exists b,
    backed h' vec b
    /\ header b = Header initialCapacity 0 elementSize
    /\ h' = <[vec := b]> h.
Proof.
  intros Hal H. apply bind_inv in H as (base & h1 & Hmalloc & H).
  unfold malloc in Hmalloc.
  destruct (alloc h _) as [f|] eqn:Ha; [|inversion Hmalloc; subst; discriminate].
  destruct (_ <? sizeof_header); [discriminate|].
  inversion Hmalloc; subst base h1. clear Hmalloc.
  destruct (Z.eqb_spec (address f) 0) as [|Hnz]; [discriminate|].
  unfold store_capacity, store_length, store_elementSize in H.
  rewrite (bind_ok _ _ _ _ _ (update_at _ _ _ _ (lookup_insert_eq _ _ _))) in H.
  rewrite (bind_ok _ _ _ _ _ (update_at _ _ _ _ (lookup_insert_eq _ _ _))) in H.
  rewrite (bind_ok _ _ _ _ _ (update_at _ _ _ _ (lookup_insert_eq _ _ _))) in H.
  simpl in H. inversion H; subst vec h'. clear H.
  rewrite !insert_insert_eq. eexists (Block _ _).
  split; [|split; reflexivity].
  split; [eapply Hal, Ha | split; [exact Hnz | apply lookup_insert_eq]].
Qed.

(** The two ways in which [vector_new] returns. *)
Lemma new_cases alloc h initialCapacity elementSize vec h' :
  aligned alloc ->
  is_size initialCapacity ->
  is_size elementSize ->
  ~ (initialCapacity = 0 /\ elementSize = 2 ^ 63) ->
  vector_new alloc initialCapacity elementSize h = Ok (vec, h') ->
  (initialCapacity = 0 /\ elementSize < 2 ^ 63
   /\ tagged vec /\ Z.shiftr vec 1 = elementSize /\ h' = h)
  \/ (~ (initialCapacity = 0 /\ elementSize < 2 ^ 63)
      /\ exists b,
          backed h' vec b
          /\ header b = Header initialCapacity 0 elementSize
          /\ h' = <[vec := b]> h).
Proof.
  intros Hal Hcap Hes Hbad. unfold vector_new.
  rewrite max_zero_capacity_eq. unfold is_size in *.
  destruct (Z.eqb_spec initialCapacity 0) as [Hz|Hz]; simpl.
  - destruct (Z.leb_spec elementSize (2 ^ 63)) as [Hle|Hgt].
    + assert (Hlt : 0 <= elementSize < 2 ^ 63) by lia.
      intros H. inversion H; subst. clear H.
      destruct (tag_encodes elementSize Hlt) as (_ & Ht & Hsh).
      left. repeat split; trivial; lia.
    + intros H. right. split; [lia|]. now apply (new_allocates alloc).
  - intros H. right. split; [lia|]. now apply (new_allocates alloc).
Qed.

(** X3 (C4 away from the boundary): for every initial capacity and element size
    other than [(0, 2^63)], the handle that [vector_new] returns reports
    length 0, the initial capacity and the element size.  With a capacity
    of 0 and an element size below [2^63] it is the tagged-empty form and
    the heap is untouched; otherwise it is the address of a new block. *)
Theorem new_reports alloc h initialCapacity elementSize vec h' :
  aligned alloc ->
  is_size initialCapacity ->
  is_size elementSize ->
  ~ (initialCapacity = 0 /\ elementSize = 2 ^ 63) ->
  vector_new alloc initialCapacity elementSize h = Ok (vec, h') ->
  vector_len vec h' = Ok (0, h')
  /\ vector_capacity vec h' = Ok (initialCapacity, h')
  /\ vector_element_size vec h' = Ok (elementSize, h')
  /\ (if (initialCapacity =? 0) && (elementSize <? 2 ^ 63)
      then tagged vec /\ h' = h
      else exists b, backed h' vec b /\ h' = <[vec := b]> h).
Proof.
  intros Hal Hcap Hes Hbad H.
  destruct (new_cases _ _ _ _ _ _ Hal Hcap Hes Hbad H)
    as [(-> & Hlt & Ht & Hsh & ->) | (Hno & b & Hb & Hhd & Hh)].
  - rewrite (run_len_tagged Ht), (run_capacity_tagged Ht),
      (run_element_size_tagged Ht), Hsh.
    replace (elementSize <? 2 ^ 63) with true by (symmetry; apply Z.ltb_lt; lia).
    now repeat split.
  - rewrite (run_len Hb), (run_capacity Hb), (run_element_size Hb), Hhd.
    replace ((initialCapacity =? 0) && (elementSize <? 2 ^ 63)) with false.
    + repeat split. now exists b.
    + symmetry. apply andb_false_iff.
      destruct (Z.eqb_spec initialCapacity 0) as [Hz|Hz]; [|now left].
      right. apply Z.ltb_ge. lia.
Qed.

Lemma bump_aligned : aligned bump.
Proof.
  intros h n f. unfold bump. intros H. inversion H; subst. simpl.
  rewrite land_1_mod.
  replace (16 * (brk h / 16 + 1)) with (8 * (brk h / 16 + 1) * 2) by lia.
  apply Z_mod_mult.
Qed.

Lemma new_reports_witness :
  let h' : heap := {[ 16 := Block (Header 10 0 4) (repeat xaa 40) ]} in
  vector_new bump 10 4 ∅ = Ok (16, h')
  /\ vector_len 16 h' = Ok (0, h')
  /\ vector_capacity 16 h' = Ok (10, h')
  /\ vector_element_size 16 h' = Ok (4, h').
Proof.
  intros h'.
  assert (Hnew : vector_new bump 10 4 ∅ = Ok (16, h')) by (vm_compute; reflexivity).
  split; [exact Hnew|].
  destruct (new_reports bump ∅ 10 4 16 h' bump_aligned) as (H1 & H2 & H3 & _);
    [unfold is_size; rewrite modulus_eq; lia
    |unfold is_size; rewrite modulus_eq; lia
    |intros (H & _); discriminate
    |exact Hnew
    |].
  split; [exact H1 | split; [exact H2 | exact H3]].
Defined.

(** ** Appending *)

Lemma splice_nil s off : splice s off [] = s.
Proof. unfold splice. simpl. rewrite Nat.add_0_r. apply take_drop. Qed.

(** [vector_insert] at the end, from the state [vector_reserve] leaves. *)
Lemma insert_at_end alloc h vec elements count vec1 h1 b1 e :
  vector_reserve alloc vec count h = Ok (vec1, h1) ->
  backed h1 vec1 b1 ->
  well_formed b1 ->
  0 <= count ->
  length (header b1) + count <= capacity (header b1) ->
  zlen e = count * elementSize (header b1) ->
  (count * elementSize (header b1) = 0
   \/ overlap (Elem vec1 (length (header b1) * elementSize (header b1)))
        elements (count * elementSize (header b1)) = false
      /\ peek elements (count * elementSize (header b1)) h1 = Ok (e, h1)) ->
  vector_insert alloc vec (length (header b1)) elements count h
  = Ok (vec1,
        <[vec1 := Block (Header (capacity (header b1)) (length (header b1) + count)
                           (elementSize (header b1)))
                    (splice (storage b1)
                       (Z.to_nat (length (header b1) * elementSize (header b1))) e)]> h1).
Proof.
  intros Hres Hb [Hlen Hes Hroom Hcap Hst] Hc Hfit He Hsrc.
  assert (Hm := modulus_eq). unfold sizeof_header, sizeof_word in Hroom.
  set (len := length (header b1)) in *. set (es := elementSize (header b1)) in *.
  set (cap := capacity (header b1)) in *. set (st := storage b1) in *.
  assert (Hbytes : (len + count) * es <= cap * es) by nia.
  unfold vector_insert. rewrite (bind_ok _ _ _ _ _ Hres).
  rewrite (base_backed Hb), (nonnull_backed Hb).
  rewrite (bind_ok _ _ _ _ _ (run_load Hb)). fold len.
  rewrite gtb_le by lia.
  rewrite (bind_ok _ _ _ _ _ (run_at_unchecked Hb _)). fold es.
  rewrite Z.ltb_irrefl. rewrite (bind_ok _ _ _ _ _ eq_refl).
  rewrite (bind_ok _ _ _ _ _ (run_load Hb)). fold es.
  rewrite (wrap_small (len * es)), (wrap_small (count * es)) by nia.
  destruct Hsrc as [Hzero | (Hov & Hpeek)].
  - assert (e = []) as -> by (destruct e; [reflexivity | simpl in He; lia]).
    unfold memcpy. rewrite Hzero. simpl (0 =? 0).
    rewrite (bind_ok _ _ _ _ _ eq_refl).
    rewrite (bind_ok _ _ _ _ _ (run_load Hb)). fold len.
    rewrite (wrap_small (len + count)) by lia.
    rewrite (bind_ok _ _ _ _ _ (run_store_length _ _ _ _ Hb)).
    fold cap es st. now rewrite splice_nil.
  - unfold memcpy. destruct (Z.eqb_spec (count * es) 0) as [Hzero|Hnz].
    + assert (e = []) as -> by (destruct e; [reflexivity | simpl in He; lia]).
      rewrite (bind_ok _ _ _ _ _ eq_refl).
      rewrite (bind_ok _ _ _ _ _ (run_load Hb)). fold len.
      rewrite (wrap_small (len + count)) by lia.
      rewrite (bind_ok _ _ _ _ _ (run_store_length _ _ _ _ Hb)).
      fold cap es st. now rewrite splice_nil.
    + rewrite Hov.
      assert (Hl : h1 !! vec1 = Some b1) by apply Hb.
      assert (Hpoke := run_poke h1 vec1 b1 (len * es) e Hl ltac:(nia)
                         ltac:(fold st; nia)).
      assert (Hcopy : (let* bs := peek elements (count * es) in
                       poke (Elem vec1 (len * es)) bs) h1
                      = Ok (Elem vec1 (len * es),
                            <[vec1 := Block (header b1)
                                        (splice st (Z.to_nat (len * es)) e)]> h1))
        by (now rewrite (bind_ok _ _ _ _ _ Hpeek)).
      rewrite (bind_ok _ _ _ _ _ Hcopy).
      rewrite (bind_ok _ _ _ _ _ (run_load (backed_insert _ _ _ _ Hb))).
      simpl header. fold len. rewrite (wrap_small (len + count)) by lia.
      rewrite (bind_ok _ _ _ _ _ (run_store_length _ _ _ _ (backed_insert _ _ _ _ Hb))).
      simpl. fold cap es. now rewrite insert_insert_eq.
Qed.

Lemma view_backed h vec b :
  backed h vec b ->
  header_of h vec = header b /\ stored h vec = storage b
  /\ contents_of h vec = contents b.
Proof.
  intros Hb. unfold contents_of, contents, header_of, stored.
  rewrite (base_backed Hb), (nonnull_backed Hb).
  destruct Hb as (_ & _ & Hl). now rewrite Hl.
Qed.

Lemma valid_backed h vec b : backed h vec b -> well_formed b -> valid h vec.
Proof. intros Hb Hwf. right. now exists b. Qed.

(** The state in which [vector_reserve] leaves a vector that has room, or
    that [realloc] can grow. *)
Lemma reserve_ready alloc h vec count p :
  valid h vec ->
  is_size count ->
  room_for alloc h vec count p ->
  exists h1 b1,
    vector_reserve alloc vec count h = Ok (p, h1)
    /\ backed h1 p b1
    /\ well_formed b1
    /\ length (header b1) = length (header_of h vec)
    /\ elementSize (header b1) = elementSize (header_of h vec)
    /\ length (header b1) + count <= capacity (header b1)
    /\ take (Z.to_nat (length (header b1) * elementSize (header b1))) (storage b1)
       = contents_of h vec
    /\ (forall q, q <> p -> q <> vec -> h1 !! q = h !! q).
Proof.
  intros Hv Hc [(Hfit & (b & Hb) & ->) | (Hgrow & HnewCap & Hsize & Hp & Heven & h1 & Hre)].
  - destruct (view_backed _ _ _ Hb) as (Hhd & Hst & Hco).
    destruct Hv as [(Ht & _) | (b' & Hb' & Hwf)].
    { destruct Hb as (He & _). now destruct Ht. }
    assert (b' = b) as -> by (destruct Hb as (_ & _ & H1), Hb' as (_ & _ & H2); congruence).
    exists h, b. rewrite Hhd in *.
    split; [apply (reserve_fits alloc h vec b count Hb)|].
    { unfold is_size in Hc. destruct Hwf. rewrite wrap_small; lia. }
    split; [exact Hb|]. split; [exact Hwf|].
    repeat split; trivial. now rewrite Hco.
  - assert (H := reserve_run alloc h vec count p h1 Hv Hc Hgrow HnewCap Hsize Hre).
    rewrite (proj2 (Z.eqb_neq p 0) Hp) in H.
    destruct H as (hd1 & st & Hl & Hpre & Hlen & Hfr & Hrun).
    destruct (layout_of_valid _ _ Hv) as (Hle & Hcapm & Hes0 & Hst).
    assert (Hm := modulus_eq). unfold is_size in Hc.
    set (hd := header_of h vec) in *.
    set (newCapacity := capacity hd + capacity hd / 2 * 3 + count) in *.
    assert (Hdiv : 0 <= capacity hd / 2 * 3)
      by (assert (0 <= capacity hd / 2) by (apply Z.div_pos; lia); lia).
    eexists _, _. split; [exact Hrun|].
    split; [split; [exact Heven | split; [exact Hp | apply lookup_insert_eq]]|].
    split; [constructor; simpl; trivial; lia|].
    simpl. repeat split; try lia.
    + unfold contents_of. fold hd. destruct Hpre as (k & ->).
      rewrite take_app_le; [reflexivity|]. nia.
    + intros q Hq Hq'. rewrite lookup_insert_ne by congruence. now apply Hfr.
Qed.

(** The block after [count] elements, the bytes [e], were written behind
    the last element. *)
Lemma appended_block b e count :
  well_formed b ->
  0 <= count ->
  length (header b) + count <= capacity (header b) ->
  zlen e = count * elementSize (header b) ->
  let b' := Block (Header (capacity (header b)) (length (header b) + count)
                     (elementSize (header b)))
              (splice (storage b)
                 (Z.to_nat (length (header b) * elementSize (header b))) e) in
  well_formed b'
  /\ contents b'
     = take (Z.to_nat (length (header b) * elementSize (header b))) (storage b) ++ e.
Proof.
  intros [Hlen Hes Hroom Hcap Hst] Hc Hfit He b'.
  set (len := length (header b)) in *. set (es := elementSize (header b)) in *.
  set (cap := capacity (header b)) in *. set (st := storage b) in *.
  assert (Hbytes : (len + count) * es <= cap * es) by nia.
  split.
  - constructor; simpl; fold len cap es; trivial; try lia.
    rewrite length_splice; [exact Hst | fold st; nia].
  - unfold contents, b', splice. simpl. fold len es st.
    rewrite app_assoc. apply take_app_length'.
    rewrite length_app, length_take. nia.
Qed.

(** X1 (C1 at the end of the vector): [vector_push] of [count] elements from a
    buffer of the caller returns whenever the vector has the room or
    [realloc] provides it; the vector then holds its former bytes followed
    by the [count * elementSize] bytes of the buffer, its length is up by
    [count], and its element size is as before. *)
Theorem push_appends alloc h vec bs count p :
  valid h vec ->
  is_size count ->
  room_for alloc h vec count p ->
  count * elementSize (header_of h vec) <= zlen bs ->
  exists h',
    vector_push alloc vec (Caller bs) count h = Ok (p, h')
    /\ valid h' p
    /\ length (header_of h' p) = length (header_of h vec) + count
    /\ elementSize (header_of h' p) = elementSize (header_of h vec)
    /\ contents_of h' p
       = contents_of h vec
         ++ take (Z.to_nat (count * elementSize (header_of h vec))) bs.
Proof.
  intros Hv Hc Hroom Hbs.
  destruct (readers_of_valid _ _ Hv) as (Hlen & _ & _).
  destruct (layout_of_valid _ _ Hv) as (_ & _ & Hes0 & _).
  destruct (reserve_ready alloc h vec count p Hv Hc Hroom)
    as (h1 & b1 & Hres & Hb1 & Hwf1 & Hlen1 & Hes1 & Hfit & Hpre & _).
  rewrite <- Hlen1, <- Hes1 in *. unfold is_size in Hc.
  set (e := take (Z.to_nat (count * elementSize (header b1))) bs).
  assert (Hn : 0 <= count * elementSize (header b1))
    by (apply Z.mul_nonneg_nonneg; lia).
  assert (He : zlen e = count * elementSize (header b1))
    by (unfold e; rewrite length_take; lia).
  destruct (appended_block b1 e count Hwf1 ltac:(lia) Hfit He) as (Hwf' & Hco').
  eexists. split.
  - unfold vector_push. rewrite (bind_ok _ _ _ _ _ Hlen).
    apply (insert_at_end alloc h vec (Caller bs) count p h1 b1 e); trivial; try lia.
    right. split; [reflexivity|].
    unfold peek, read_at.
    replace (_ && _) with true; [reflexivity|].
    symmetry. repeat (apply andb_true_iff; split); apply Z.leb_le; nia.
  - assert (Hb' := backed_insert h1 p b1
                     (Block (Header (capacity (header b1)) (length (header b1) + count)
                               (elementSize (header b1)))
                        (splice (storage b1)
                           (Z.to_nat (length (header b1) * elementSize (header b1))) e))
                     Hb1).
    destruct (view_backed _ _ _ Hb') as (Hhd & _ & Hco).
    split; [now apply (valid_backed _ _ _ Hb')|].
    rewrite Hhd, Hco, Hco', Hpre. now repeat split.
Qed.

Lemma room_in_three : room_for bump heap_three 16 1 16.
Proof.
  left. split; [vm_compute; discriminate|]. split; [|reflexivity].
  exists three. apply backed_three.
Qed.

Lemma push_appends_witness :
  exists h',
    vector_push bump 16 (Caller [x09]) 1 heap_three = Ok (16, h')
    /\ valid h' 16
    /\ length (header_of h' 16) = 4
    /\ elementSize (header_of h' 16) = 1
    /\ contents_of h' 16 = [x01; x02; x03; x09].
Proof.
  apply (push_appends bump heap_three 16 [x09] 1 16 valid_three).
  - unfold is_size. rewrite modulus_eq. lia.
  - apply room_in_three.
  - vm_compute. discriminate.
Defined.

(** X4 (C6 where it holds): when the other vector is heap-backed and distinct
    from the receiver, the element sizes agree, and the receiver has the
    room or [realloc] provides it at an address other than the other
    vector's, [vector_extend] returns; the receiver then holds its former
    bytes followed by the other vector's, its length is up by the other's
    length, and the other vector's block is as before. *)
Theorem extend_appends alloc h vec other bo p :
  valid h vec ->
  backed h other bo ->
  well_formed bo ->
  other <> vec ->
  other <> p ->
  elementSize (header_of h vec) = elementSize (header bo) ->
  room_for alloc h vec (length (header bo)) p ->
  exists h',
    vector_extend alloc vec other h = Ok (p, h')
    /\ valid h' p
    /\ length (header_of h' p) = length (header_of h vec) + length (header bo)
    /\ elementSize (header_of h' p) = elementSize (header_of h vec)
    /\ contents_of h' p = contents_of h vec ++ contents bo
    /\ h' !! other = Some bo.
Proof.
  intros Hv Hbo Hwfo Hne Hnp Hsame Hroom.
  assert (Hwfo' := Hwfo). destruct Hwfo' as [Hleno Heso Hroomo Hcapo Hsto].
  assert (Hc : is_size (length (header bo))) by (unfold is_size; lia).
  destruct (readers_of_valid _ _ Hv) as (Hlen & _ & Hes).
  destruct (reserve_ready alloc h vec _ p Hv Hc Hroom)
    as (h1 & b1 & Hres & Hb1 & Hwf1 & Hlen1 & Hes1 & Hfit & Hpre & Hfr).
  rewrite <- Hlen1, <- Hes1 in *.
  assert (Hn : 0 <= length (header bo) * elementSize (header bo)
               <= capacity (header bo) * elementSize (header bo)) by nia.
  assert (He : zlen (contents bo) = length (header bo) * elementSize (header b1))
    by (unfold contents; rewrite length_take, Hsame; lia).
  destruct (appended_block b1 (contents bo) (length (header bo)) Hwf1 ltac:(lia) Hfit He)
    as (Hwf' & Hco').
  assert (Hlo : h1 !! other = Some bo)
    by (rewrite Hfr by congruence; apply Hbo).
  eexists. split.
  - unfold vector_extend.
    rewrite (bind_ok _ _ _ _ _ Hes), (bind_ok _ _ _ _ _ (run_element_size Hbo)).
    rewrite Hsame, Z.eqb_refl. cbn [negb].
    rewrite (base_backed Hbo), (nonnull_backed Hbo). cbn [negb].
    rewrite (bind_ok _ _ _ _ _ (run_load Hbo)).
    unfold vector_push. rewrite (bind_ok _ _ _ _ _ Hlen).
    apply (insert_at_end alloc h vec (Elem other 0) _ p h1 b1 (contents bo));
      trivial; try lia.
    right. split.
    + unfold overlap.
      assert (Hpo : (p =? other) = false) by (apply Z.eqb_neq; congruence).
      now rewrite Hpo.
    + rewrite (run_peek h1 other bo 0 _ Hlo); [| lia | nia | nia].
      rewrite Hsame. reflexivity.
  - assert (Hb' := backed_insert h1 p b1
                     (Block (Header (capacity (header b1))
                               (length (header b1) + length (header bo))
                               (elementSize (header b1)))
                        (splice (storage b1)
                           (Z.to_nat (length (header b1) * elementSize (header b1)))
                           (contents bo)))
                     Hb1).
    destruct (view_backed _ _ _ Hb') as (Hhd & _ & Hco).
    split; [now apply (valid_backed _ _ _ Hb')|].
    rewrite Hhd, Hco, Hco', Hpre.
    repeat split. rewrite lookup_insert_ne by congruence. exact Hlo.
Qed.

Lemma backed_pair : backed heap_pair 48 pair.
Proof. split; [reflexivity | split; [discriminate | reflexivity]]. Qed.

Lemma well_formed_pair : well_formed pair.
Proof. constructor; cbn; rewrite ?modulus_eq; unfold sizeof_header, sizeof_word; lia. Qed.

Lemma valid_three_in_pair : valid heap_pair 16.
Proof.
  right. exists three. split; [|apply well_formed_three].
  split; [reflexivity | split; [discriminate | reflexivity]].
Qed.

Lemma room_in_pair : room_for bump heap_pair 16 (length (header pair)) 80.
Proof.
  right. split; [vm_compute; reflexivity|].
  split; [vm_compute; reflexivity|]. split; [vm_compute; reflexivity|].
  split; [discriminate|]. split; [reflexivity|].
  eexists. vm_compute. reflexivity.
Qed.

Lemma extend_appends_witness :
  exists h',
    vector_extend bump 16 48 heap_pair = Ok (80, h')
    /\ valid h' 80
    /\ length (header_of h' 80) = 3 + 2
    /\ elementSize (header_of h' 80) = 1
    /\ contents_of h' 80 = [x01; x02; x03] ++ [x0b; x0c]
    /\ h' !! 48 = Some pair.
Proof.
  apply (extend_appends bump heap_pair 16 48 pair 80
           valid_three_in_pair backed_pair well_formed_pair).
  - discriminate.
  - discriminate.
  - reflexivity.
  - apply room_in_pair.
Defined.

(** X5 (C6, the two other cases): [vector_extend] aborts when the element sizes
    differ, and returns the receiver unchanged when the other vector is in
    tagged-empty form with the same element size. *)
Theorem extend_without_elements alloc h vec other :
  valid h vec ->
  valid h other ->
  (elementSize (header_of h vec) <> elementSize (header_of h other) ->
   vector_extend alloc vec other h = Abort)
  /\ (elementSize (header_of h vec) = elementSize (header_of h other) ->
      tagged other ->
      vector_extend alloc vec other h = Ok (vec, h)).
Proof.
  intros Hv Ho.
  destruct (readers_of_valid _ _ Hv) as (_ & _ & Hes).
  destruct (readers_of_valid _ _ Ho) as (_ & _ & Hes').
  unfold vector_extend.
  rewrite (bind_ok _ _ _ _ _ Hes), (bind_ok _ _ _ _ _ Hes').
  split.
  - intros Hne. now rewrite (proj2 (Z.eqb_neq _ _) Hne).
  - intros -> Ht. rewrite Z.eqb_refl, (vector_base_tagged _ Ht). reflexivity.
Qed.

Lemma extend_without_elements_witness :
  vector_extend bump 16 9 heap_three = Abort
  /\ vector_extend bump 16 3 heap_three = Ok (16, heap_three).
Proof.
  assert (Hv : forall v, Z.land v 1 <> 0 -> 0 <= v < 100 -> valid heap_three v).
  { intros v Hv Hr. left. split; [exact Hv|].
    unfold is_size. rewrite modulus_eq. lia. }
  split.
  - apply (extend_without_elements bump heap_three 16 9 valid_three
             (Hv 9 ltac:(discriminate) ltac:(lia))).
    vm_compute. discriminate.
  - apply (extend_without_elements bump heap_three 16 3 valid_three
             (Hv 3 ltac:(discriminate) ltac:(lia))).
    + reflexivity.
    + discriminate.
Defined.

(** ** The header invariants *)

Lemma header_of_ext h h' vec :
  header <$> (h' !! vector_base vec) = header <$> (h !! vector_base vec) ->
  header_of h' vec = header_of h vec.
Proof.
  intros H. unfold header_of. destruct (vector_base vec =? 0); [reflexivity|].
  destruct (h' !! vector_base vec), (h !! vector_base vec); simpl in H;
    congruence.
Qed.

(** A write leaves the header of the block at [q] as it is, unless it goes
    through a pointer into that header. *)
Lemma poke_header_at p bs h p' h' q :
  (forall off, p = Elem q off -> 0 <= off) ->
  poke p bs h = Ok (p', h') ->
  header <$> (h' !! q) = header <$> (h !! q).
Proof.
  intros Hq. destruct p as [|base off|old].
  - discriminate.
  - intros H. apply poke_block in H as (b & b' & Hl & Hw & -> & ->).
    destruct (decide (q = base)) as [->|Hne].
    + rewrite lookup_insert_eq, Hl. simpl. f_equal.
      apply write_block_image in Hw as (_ & _ & _ & Hkeep).
      apply Hkeep. now apply Hq.
    + now rewrite lookup_insert_ne.
  - intros H. now rewrite (read_only_poke_outside (Caller old) bs
                             ltac:(discriminate) _ _ _ H).
Qed.

Lemma memcpy_header_at dst src n h p h' q :
  (forall off, dst = Elem q off -> 0 <= off) ->
  memcpy dst src n h = Ok (p, h') ->
  header <$> (h' !! q) = header <$> (h !! q).
Proof.
  intros Hq H.
  apply memcpy_writes in H as [(_ & _ & ->) | (_ & bs & _ & H)]; [reflexivity|].
  exact (poke_header_at _ _ _ _ _ _ Hq H).
Qed.

Lemma poke_headers p bs h p' h' :
  clear_of_headers p ->
  poke p bs h = Ok (p', h') ->
  forall q, header <$> (h' !! q) = header <$> (h !! q).
Proof.
  intros Hp H q. apply (poke_header_at _ _ _ _ _ q) in H; [exact H|].
  intros off ->. exact Hp.
Qed.

Lemma memmove_headers dst src n h p h' :
  clear_of_headers dst ->
  memmove dst src n h = Ok (p, h') ->
  forall q, header <$> (h' !! q) = header <$> (h !! q).
Proof.
  intros Hp. unfold memmove. destruct (n =? 0).
  - intros H q. now inversion H.
  - intros H. apply bind_inv in H as (bs & h1 & H1 & H2).
    apply read_only_peek in H1. subst h1. exact (poke_headers _ _ _ _ _ Hp H2).
Qed.

Lemma memcpy_headers dst src n h p h' :
  clear_of_headers dst ->
  memcpy dst src n h = Ok (p, h') ->
  forall q, header <$> (h' !! q) = header <$> (h !! q).
Proof.
  intros Hp H q. apply (memcpy_header_at _ _ _ _ _ _ q) in H; [exact H|].
  intros off ->. exact Hp.
Qed.

(** A header read after bytes were moved is the header read before. *)
Lemma load_after (h h' : heap) p hd h'' :
  (forall q, header <$> (h' !! q) = header <$> (h !! q)) ->
  load_header p h' = Ok (hd, h'') ->
  h'' = h' /\ exists b b', h !! p = Some b /\ h' !! p = Some b' /\ hd = header b
                           /\ header b' = header b.
Proof.
  intros Hfr H. unfold load_header in H. specialize (Hfr p).
  destruct (h' !! p) as [b'|] eqn:Hl'; [|discriminate].
  destruct (h !! p) as [b|] eqn:Hl; [|discriminate].
  inversion H; subst. simpl in Hfr. inversion Hfr as [Hh].
  split; [reflexivity|]. now exists b, b'.
Qed.

Lemma store_length_inv p v h h' :
  store_length p v h = Ok (tt, h') ->
  exists b, h !! p = Some b
            /\ h' = <[p := Block (Header (capacity (header b)) v (elementSize (header b)))
                             (storage b)]> h.
Proof.
  unfold store_length, update_header.
  destruct (h !! p) as [b|]; [|discriminate].
  intros H. inversion H. now exists b.
Qed.

Lemma backed_of_valid h vec :
  valid h vec -> vector_base vec <> 0 -> exists b, backed h vec b /\ well_formed b.
Proof.
  intros [(Ht & _) | Hb] Hbase; [|exact Hb].
  now rewrite (vector_base_tagged _ Ht) in Hbase.
Qed.

Lemma header_of_backed h vec b : backed h vec b -> header_of h vec = header b.
Proof. intros Hb. now destruct (view_backed _ _ _ Hb). Qed.

Lemma wrap_le n : 0 <= n -> wrap n <= n.
Proof.
  intros H. unfold wrap. apply Z.mod_le; [exact H | now rewrite modulus_eq].
Qed.

Lemma realloc_result alloc old size h p h1 :
  aligned alloc ->
  realloc alloc old size h = Ok (p, h1) ->
  p <> 0 ->
  Z.land p 1 = 0 /\ exists blk, h1 !! p = Some blk.
Proof.
  intros Hal. unfold realloc, malloc. destruct (old =? 0).
  - destruct (alloc h size) as [f|] eqn:Ha.
    + destruct (size <? sizeof_header); [discriminate|].
      intros H _. inversion H; subst. split; [now apply (Hal _ _ _ Ha)|].
      eexists. apply lookup_insert_eq.
    + intros H Hp. inversion H; subst. now destruct Hp.
  - destruct (h !! old); [|discriminate].
    destruct (alloc (delete old h) size) as [f|] eqn:Ha.
    + destruct (size <? sizeof_header); [discriminate|].
      intros H _. inversion H; subst. split; [now apply (Hal _ _ _ Ha)|].
      eexists. apply lookup_insert_eq.
    + intros H Hp. inversion H; subst. now destruct Hp.
Qed.

(** What [vector_reserve] leaves when it returns. *)
Lemma reserve_post alloc h vec extra vec' h' :
  aligned alloc ->
  valid h vec ->
  is_size extra ->
  let hd := header_of h vec in
  capacity hd + capacity hd / 2 * 3 + extra < modulus ->
  vector_reserve alloc vec extra h = Ok (vec', h') ->
  (vec' = vec /\ h' = h /\ wrap (length hd + extra) <= capacity hd)
  \/ (exists b',
        backed h' vec' b'
        /\ header b'
           = Header (capacity hd + capacity hd / 2 * 3 + extra) (length hd)
               (elementSize hd)).
Proof.
  intros Hal Hv Hx hd HnewCap. unfold is_size in Hx.
  destruct (readers_of_valid _ _ Hv) as (Hlen & Hcap & Hes).
  destruct (layout_of_valid _ _ Hv) as (Hle & Hcapm & Hes0 & _).
  fold hd in Hlen, Hcap, Hes, Hle, Hcapm, Hes0.
  assert (Hdiv : 0 <= capacity hd / 2 * 3)
    by (assert (0 <= capacity hd / 2) by (apply Z.div_pos; lia); lia).
  unfold vector_reserve.
  rewrite (bind_ok _ _ _ _ _ Hlen), (bind_ok _ _ _ _ _ Hcap).
  destruct (Z.leb_spec (wrap (length hd + extra)) (capacity hd)) as [Hfit|Hgrow].
  - intros H. inversion H; subst. left. now repeat split.
  - rewrite (bind_ok _ _ _ _ _ Hes).
    rewrite (wrap_small (capacity hd / 2 * 3)) by lia.
    rewrite (wrap_small (capacity hd + capacity hd / 2 * 3)) by lia.
    rewrite (wrap_small (capacity hd + capacity hd / 2 * 3 + extra)) by lia.
    intros H. apply bind_inv in H as (p & h1 & Hre & H).
    destruct (Z.eqb_spec p 0) as [|Hp]; [discriminate|].
    destruct (realloc_result _ _ _ _ _ _ Hal Hre Hp) as (Heven & blk & Hl).
    rewrite (run_fill_header _ _ _ _ _ _ Hl) in H. inversion H; subst.
    right. eexists (Block _ _). split; [|reflexivity].
    split; [exact Heven | split; [exact Hp | apply lookup_insert_eq]].
Qed.

(** [vector_insert], whatever it moves, leaves a block whose length is
    within its capacity and whose element size is the one before. *)
Lemma insert_keeps alloc h vec index elements count vec' h' :
  aligned alloc ->
  valid h vec ->
  is_size count ->
  capacity (header_of h vec) + capacity (header_of h vec) / 2 * 3 + count < modulus ->
  vector_insert alloc vec index elements count h = Ok (vec', h') ->
  exists b',
    backed h' vec' b'
    /\ 0 <= length (header b') <= capacity (header b')
    /\ elementSize (header b') = elementSize (header_of h vec).
Proof.
  intros Hal Hv Hc HnewCap H. unfold is_size in Hc.
  destruct (layout_of_valid _ _ Hv) as (Hle & Hcapm & Hes0 & _).
  assert (Hdiv : 0 <= capacity (header_of h vec) / 2 * 3)
    by (assert (0 <= capacity (header_of h vec) / 2) by (apply Z.div_pos; lia); lia).
  unfold vector_insert in H.
  apply bind_inv in H as (vec1 & h1 & Hres & H).
  destruct (Z.eqb_spec (vector_base vec1) 0) as [|Hbase]; [discriminate|].
  assert (Hb1 : exists b1,
             backed h1 vec1 b1
             /\ wrap (length (header b1) + count) <= capacity (header b1)
             /\ 0 <= length (header b1)
             /\ elementSize (header b1) = elementSize (header_of h vec)).
  { destruct (reserve_post _ _ _ _ _ _ Hal Hv Hc HnewCap Hres)
      as [(-> & -> & Hfit) | (b1 & Hb1 & Hhd)].
    - destruct (backed_of_valid _ _ Hv Hbase) as (b & Hb & _).
      rewrite (header_of_backed _ _ _ Hb) in *.
      exists b. split; [exact Hb|]. repeat split; trivial; lia.
    - exists b1. rewrite Hhd. simpl. split; [exact Hb1|].
      assert (Hw := wrap_le (length (header_of h vec) + count) ltac:(lia)).
      repeat split; trivial; lia. }
  destruct Hb1 as (b1 & Hb1 & Hfit & Hlen0 & Hes1).
  rewrite (base_backed Hb1) in H.
  rewrite (bind_ok _ _ _ _ _ (run_load Hb1)) in H.
  destruct (index >? length (header b1)); [discriminate|].
  rewrite (bind_ok _ _ _ _ _ (run_at_unchecked Hb1 _)) in H.
  apply bind_inv in H as ([] & h2 & Hmove & H).
  assert (Hfr2 : forall q, header <$> (h2 !! q) = header <$> (h1 !! q)).
  { destruct (index <? length (header b1)).
    - rewrite (bind_ok _ _ _ _ _ (run_at_unchecked Hb1 _)) in Hmove.
      rewrite (bind_ok _ _ _ _ _ (run_load Hb1)) in Hmove.
      apply bind_inv in Hmove as (p & h2' & Hmm & Hret).
      inversion Hret; subst.
      eapply memmove_headers; [|exact Hmm]. exact (proj1 (wrap_range _)).
    - inversion Hmove; subst. reflexivity. }
  apply bind_inv in H as (hd2 & h2' & Hload2 & H).
  destruct (load_after _ _ _ _ _ Hfr2 Hload2) as (E2 & _). subst h2'.
  apply bind_inv in H as (p3 & h3 & Hcpy & H).
  assert (Hfr3 : forall q, header <$> (h3 !! q) = header <$> (h1 !! q))
    by (intros q; rewrite <- Hfr2; revert q;
        eapply memcpy_headers; [|exact Hcpy]; exact (proj1 (wrap_range _))).
  apply bind_inv in H as (hd3 & h3' & Hload3 & H).
  destruct (load_after _ _ _ _ _ Hfr3 Hload3) as (E3 & b & b3 & Hl & Hl3 & Ehd & Hh3).
  subst h3' hd3.
  assert (b = b1) as -> by (destruct Hb1 as (_ & _ & Hl1); congruence).
  apply bind_inv in H as ([] & h4 & Hstore & H).
  inversion H; subst. clear H.
  apply store_length_inv in Hstore as (b3' & Hl3' & ->).
  assert (b3' = b3) as -> by congruence.
  eexists. split.
  - destruct Hb1 as (He & Hn & _).
    split; [exact He | split; [exact Hn | apply lookup_insert_eq]].
  - simpl. rewrite Hh3. repeat split; trivial.
    apply wrap_range.
Qed.

Lemma kept_of_valid h vec :
  valid h vec -> bounded h vec.
Proof. intros Hv. destruct (layout_of_valid _ _ Hv) as (Hle & _). apply Hle. Qed.

Lemma remove_keeps h vec index count h' :
  valid h vec ->
  is_size index ->
  is_size count ->
  index + count < modulus ->
  vector_remove vec index count h = Ok (tt, h') ->
  exists b',
    backed h' vec b'
    /\ 0 <= length (header b') <= capacity (header b')
    /\ elementSize (header b') = elementSize (header_of h vec).
Proof.
  intros Hv Hi Hc Hsum H. unfold is_size in *. unfold vector_remove in H.
  destruct (Z.eqb_spec (vector_base vec) 0) as [|Hbase]; [discriminate|].
  destruct (backed_of_valid _ _ Hv Hbase) as (b & Hb & [Hlen _ _ Hcap _]).
  rewrite (header_of_backed _ _ _ Hb).
  rewrite (base_backed Hb) in H.
  rewrite (bind_ok _ _ _ _ _ (run_len Hb)) in H.
  rewrite (wrap_small (index + count)) in H by lia.
  destruct (Z.gtb_spec (index + count) (length (header b))) as [|Hrange];
    [discriminate|].
  rewrite (bind_ok _ _ _ _ _ (run_at_unchecked Hb _)) in H.
  rewrite (bind_ok _ _ _ _ _ (run_at_unchecked Hb _)) in H.
  rewrite (bind_ok _ _ _ _ _ (run_load Hb)) in H.
  apply bind_inv in H as (p & h2 & Hmm & H).
  assert (Hfr : forall q, header <$> (h2 !! q) = header <$> (h !! q))
    by (eapply memmove_headers; [|exact Hmm]; exact (proj1 (wrap_range _))).
  apply bind_inv in H as (hd2 & h2' & Hload & H).
  destruct (load_after _ _ _ _ _ Hfr Hload) as (E & b0 & b2 & Hl & Hl2 & Ehd & Hh2).
  subst h2' hd2.
  assert (b0 = b) as -> by (destruct Hb as (_ & _ & Hl1); congruence).
  apply store_length_inv in H as (b2' & Hl2' & ->).
  assert (b2' = b2) as -> by congruence.
  eexists. split.
  - destruct Hb as (He & Hn & _).
    split; [exact He | split; [exact Hn | apply lookup_insert_eq]].
  - simpl. rewrite Hh2. rewrite wrap_small by lia. repeat split; trivial; lia.
Qed.

(** X6 (C8 away from the wrap-around): as long as the capacity computed by
    [vector_reserve] and the sum [index + count] stay within a [size_t], and
    the destination of [vector_slice] does not point into the header of
    the vector itself, every operation that returns leaves a handle whose
    length is within its capacity and whose element size is the one it had
    before; the handle that [vector_new] returns has length 0 within its
    capacity and the element size it was given (the pair [(0, 2^63)] of C4
    apart). *)
Theorem invariants_kept alloc h vec :
  aligned alloc ->
  valid h vec ->
  let hd := header_of h vec in
  let kept vec' h' :=
    bounded h' vec' /\ elementSize (header_of h' vec') = elementSize hd in
  let grows n := capacity hd + capacity hd / 2 * 3 + n < modulus in
  (forall extra vec' h',
      is_size extra -> grows extra ->
      vector_reserve alloc vec extra h = Ok (vec', h') -> kept vec' h')
  /\ (forall index elements count vec' h',
        is_size count -> grows count ->
        vector_insert alloc vec index elements count h = Ok (vec', h') ->
        kept vec' h')
  /\ (forall elements count vec' h',
        is_size count -> grows count ->
        vector_push alloc vec elements count h = Ok (vec', h') -> kept vec' h')
  /\ (forall index slice count p h',
        (forall off, slice = Elem vec off -> 0 <= off) ->
        vector_slice vec index slice count h = Ok (p, h') -> kept vec h')
  /\ (forall other vec' h',
        valid h other -> grows (length (header_of h other)) ->
        vector_extend alloc vec other h = Ok (vec', h') -> kept vec' h')
  /\ (forall index count h',
        is_size index -> is_size count -> index + count < modulus ->
        vector_remove vec index count h = Ok (tt, h') -> kept vec h')
  /\ (forall h', vector_clear vec h = Ok (tt, h') -> kept vec h')
  /\ (forall initialCapacity size vec' h',
        is_size initialCapacity -> is_size size ->
        ~ (initialCapacity = 0 /\ size = 2 ^ 63) ->
        vector_new alloc initialCapacity size h = Ok (vec', h') ->
        bounded h' vec' /\ elementSize (header_of h' vec') = size).
Proof.
  intros Hal Hv hd kept grows.
  assert (Hkept : kept vec h) by (split; [now apply kept_of_valid | reflexivity]).
  assert (Hblock : forall vec' h' b',
             backed h' vec' b' ->
             0 <= length (header b') <= capacity (header b') ->
             elementSize (header b') = elementSize hd -> kept vec' h').
  { intros vec' h' b' Hb' Hle Hes. unfold kept, bounded.
    rewrite (header_of_backed _ _ _ Hb'). split; [lia | exact Hes]. }
  assert (Hins : forall index elements count vec' h',
             is_size count -> grows count ->
             vector_insert alloc vec index elements count h = Ok (vec', h') ->
             kept vec' h').
  { intros index elements count vec' h' Hc Hg H.
    destruct (insert_keeps _ _ _ _ _ _ _ _ Hal Hv Hc Hg H) as (b' & Hb' & Hle & Hes).
    now apply (Hblock _ _ b'). }
  assert (Hpush : forall elements count vec' h',
             is_size count -> grows count ->
             vector_push alloc vec elements count h = Ok (vec', h') ->
             kept vec' h').
  { intros elements count vec' h' Hc Hg H. unfold vector_push in H.
    apply bind_inv in H as (len & h1 & Hlen & H).
    apply read_only_len in Hlen. subst h1. now apply Hins in H. }
  split; [|split; [exact Hins | split; [exact Hpush | split; [|split; [|split; [|split]]]]]].
  - intros extra vec' h' Hx Hg H.
    destruct (layout_of_valid _ _ Hv) as (Hle & _ & _ & _). fold hd in Hle.
    assert (Hdiv : 0 <= capacity hd / 2 * 3)
      by (assert (0 <= capacity hd / 2) by (apply Z.div_pos; lia); lia).
    destruct (reserve_post _ _ _ _ _ _ Hal Hv Hx Hg H)
      as [(-> & -> & _) | (b' & Hb' & Hhd)]; [exact Hkept|].
    apply (Hblock _ _ b' Hb'); rewrite Hhd; simpl; [|reflexivity].
    unfold is_size in Hx. fold hd. lia.
  - intros index slice count p h' Hdst H.
    assert (Hbase : vector_base vec = vec).
    { unfold vector_slice in H. unfold vector_base in *.
      destruct (Z.land vec 1 =? 0); simpl in *; [reflexivity | discriminate]. }
    apply slice_inv in H as (bv & _ & _ & _ & Hcpy).
    assert (Hfr := memcpy_header_at _ _ _ _ _ _ vec Hdst Hcpy).
    unfold kept, bounded. rewrite (header_of_ext h h' vec); [exact Hkept|].
    now rewrite Hbase.
  - intros other vec' h' Ho Hg H. unfold vector_extend in H.
    apply bind_inv in H as (es & h1 & H1 & H).
    apply read_only_element_size in H1. subst h1.
    apply bind_inv in H as (es' & h1 & H1 & H).
    apply read_only_element_size in H1. subst h1.
    destruct (negb (es =? es')); [discriminate|].
    destruct (Z.eqb_spec (vector_base other) 0) as [Hz|Hbase]; simpl in H.
    + inversion H; subst. exact Hkept.
    + destruct (backed_of_valid _ _ Ho Hbase) as (bo & Hbo & [Hleno _ _ Hcapo _]).
      rewrite (base_backed Hbo) in H.
      rewrite (bind_ok _ _ _ _ _ (run_load Hbo)) in H.
      rewrite (header_of_backed _ _ _ Hbo) in Hg.
      apply Hpush in H; trivial. unfold is_size. lia.
  - intros index count h' Hi Hc Hsum H.
    destruct (remove_keeps _ _ _ _ _ Hv Hi Hc Hsum H) as (b' & Hb' & Hle & Hes).
    now apply (Hblock _ _ b').
  - intros h' H. unfold vector_clear in H.
    destruct (Z.eqb_spec (vector_base vec) 0) as [Hz|Hbase]; simpl in H.
    + inversion H; subst. exact Hkept.
    + destruct (backed_of_valid _ _ Hv Hbase) as (b & Hb & [Hlen _ _ _ _]).
      rewrite (base_backed Hb) in H.
      rewrite (run_store_length _ _ _ _ Hb) in H. inversion H; subst.
      apply (Hblock _ _ _ (backed_insert _ _ _ _ Hb)); simpl; [lia|].
      unfold hd. now rewrite (header_of_backed _ _ _ Hb).
  - intros initialCapacity size vec' h' Hcap Hes Hbad H.
    destruct (new_cases _ _ _ _ _ _ Hal Hcap Hes Hbad H)
      as [(-> & Hlt & Ht & Hsh & ->) | (Hno & b & Hb & Hhd & Hh)].
    + unfold bounded, header_of. rewrite (vector_base_tagged _ Ht). simpl.
      split; [lia | exact Hsh].
    + unfold bounded. rewrite (header_of_backed _ _ _ Hb), Hhd. simpl.
      unfold is_size in Hcap. split; [lia | reflexivity].
Qed.

Lemma invariants_kept_witness :
  let h' : heap := <[16 := Block (Header 4 2 1) [x01; x03; x03; xaa]]> heap_three in
  vector_remove 16 1 1 heap_three = Ok (tt, h')
  /\ bounded h' 16
  /\ elementSize (header_of h' 16) = 1.
Proof.
  intros h'.
  assert (Hrun : vector_remove 16 1 1 heap_three = Ok (tt, h'))
    by (vm_compute; reflexivity).
  split; [exact Hrun|].
  destruct (invariants_kept bump heap_three 16 bump_aligned valid_three)
    as (_ & _ & _ & _ & _ & Hremove & _ & _).
  apply (Hremove 1 1 h'); trivial;
    unfold is_size; rewrite modulus_eq; lia.
Defined.

(** ** The tests of the repository *)

(** [test_vector_mutation] ends with [vec] holding 1 to 14 and [other]
    holding 11 to 14, as its assertions demand. *)
Lemma test_vector_mutation_passes :
  exists vec other h,
    test_vector_mutation ∅ = Ok ((vec, other), h)
    /\ length (header_of h vec) = 14
    /\ contents_of h vec = ints [1; 2; 3; 4; 5; 6; 7; 8; 9; 10; 11; 12; 13; 14]%N
    /\ length (header_of h other) = 4
    /\ contents_of h other = ints [11; 12; 13; 14]%N.
Proof.
  eexists _, _, _. split; [vm_compute; reflexivity|].
  split; [vm_compute; reflexivity|]. split; [vm_compute; reflexivity|].
  split; vm_compute; reflexivity.
Qed.

(** [test_vector_slice]: the three buffers hold 1 to 6, then 3, 4, 5,
    then 6. *)
Lemma test_vector_slice_passes :
  exists h,
    test_vector_slice ∅
    = Ok ((Caller (ints [1; 2; 3; 4; 5; 6]%N), Caller (ints [3; 4; 5]%N),
           Caller (ints [6]%N)), h).
Proof. eexists. vm_compute. reflexivity. Qed.

(** [test_vector_nops]: the four zero-count calls return and leave the
    heap as it was. *)
Lemma test_vector_nops_passes :
  exists vec h, test_vector_nops ∅ = Ok ((vec, h, h), h).
Proof. eexists _, _. vm_compute. reflexivity. Qed.

(** * Further properties of the operations *)

(** ** What a push leaves *)

Lemma backed_same h vec b b' : backed h vec b -> backed h vec b' -> b' = b.
Proof. intros (_ & _ & H1) (_ & _ & H2). congruence. Qed.

(** The capacity [vector_reserve] leaves. *)
Lemma reserve_capacity alloc h vec count p h1 b1 :
  valid h vec ->
  is_size count ->
  room_for alloc h vec count p ->
  vector_reserve alloc vec count h = Ok (p, h1) ->
  backed h1 p b1 ->
  capacity (header b1)
  = if length (header_of h vec) + count <=? capacity (header_of h vec)
    then capacity (header_of h vec)
    else capacity (header_of h vec) + capacity (header_of h vec) / 2 * 3 + count.
Proof.
  intros Hv Hc [(Hfit & (b & Hb) & ->) | (Hgrow & HnewCap & Hsize & Hp & Heven & hr & Hre)]
    Hres Hb1.
  - rewrite (header_of_backed _ _ _ Hb) in *.
    assert (Hrun := reserve_fits alloc h vec b count Hb).
    destruct (backed_of_valid h vec Hv) as (b' & Hb' & Hwf).
    { rewrite (base_backed Hb). apply Hb. }
    rewrite (backed_same _ _ _ _ Hb Hb') in Hwf. destruct Hwf.
    unfold is_size in Hc. rewrite Hrun in Hres by (rewrite wrap_small; lia).
    inversion Hres; subst h1.
    rewrite (backed_same _ _ _ _ Hb Hb1).
    now replace (_ <=? _) with true by (symmetry; apply Z.leb_le; lia).
  - assert (H := reserve_run alloc h vec count p hr Hv Hc Hgrow HnewCap Hsize Hre).
    rewrite (proj2 (Z.eqb_neq p 0) Hp) in H.
    destruct H as (hd1 & st & _ & _ & _ & _ & Hrun).
    rewrite Hrun in Hres. inversion Hres; subst h1.
    destruct Hb1 as (_ & _ & Hl). rewrite lookup_insert_eq in Hl.
    inversion Hl; subst b1. simpl.
    now replace (_ <=? _) with false by (symmetry; apply Z.leb_gt; lia).
Qed.

(** [vector_push] from a buffer of the caller, with everything it leaves. *)
Lemma push_run alloc h vec bs count p :
  valid h vec ->
  is_size count ->
  room_for alloc h vec count p ->
  count * elementSize (header_of h vec) <= zlen bs ->
  exists h' b',
    vector_push alloc vec (Caller bs) count h = Ok (p, h')
    /\ backed h' p b'
    /\ well_formed b'
    /\ length (header b') = length (header_of h vec) + count
    /\ elementSize (header b') = elementSize (header_of h vec)
    /\ capacity (header b')
       = (if length (header_of h vec) + count <=? capacity (header_of h vec)
          then capacity (header_of h vec)
          else capacity (header_of h vec) + capacity (header_of h vec) / 2 * 3 + count)
    /\ contents b'
       = contents_of h vec
         ++ take (Z.to_nat (count * elementSize (header_of h vec))) bs
    /\ (forall q, q <> p -> q <> vec -> h' !! q = h !! q).
Proof.
  intros Hv Hc Hroom Hbs.
  destruct (readers_of_valid _ _ Hv) as (Hlen & _ & _).
  destruct (layout_of_valid _ _ Hv) as (_ & _ & Hes0 & _).
  destruct (reserve_ready alloc h vec count p Hv Hc Hroom)
    as (h1 & b1 & Hres & Hb1 & Hwf1 & Hlen1 & Hes1 & Hfit & Hpre & Hfr).
  assert (Hcap := reserve_capacity _ _ _ _ _ _ _ Hv Hc Hroom Hres Hb1).
  rewrite <- Hlen1, <- Hes1 in *. unfold is_size in Hc.
  set (e := take (Z.to_nat (count * elementSize (header b1))) bs).
  assert (Hn : 0 <= count * elementSize (header b1))
    by (apply Z.mul_nonneg_nonneg; lia).
  assert (He : zlen e = count * elementSize (header b1))
    by (unfold e; rewrite length_take; lia).
  destruct (appended_block b1 e count Hwf1 ltac:(lia) Hfit He) as (Hwf' & Hco').
  eexists _, (Block _ _). split.
  - unfold vector_push. rewrite (bind_ok _ _ _ _ _ Hlen).
    apply (insert_at_end alloc h vec (Caller bs) count p h1 b1 e); trivial; try lia.
    right. split; [reflexivity|].
    unfold peek, read_at.
    replace (_ && _) with true; [reflexivity|].
    symmetry. repeat (apply andb_true_iff; split); apply Z.leb_le; nia.
  - split; [exact (backed_insert _ _ _ _ Hb1)|].
    split; [exact Hwf'|]. simpl.
    split; [reflexivity|]. split; [reflexivity|]. split; [exact Hcap|].
    split; [now rewrite Hco', Hpre|].
    intros q Hq Hq'. rewrite lookup_insert_ne by congruence. now apply Hfr.
Qed.

(** ** Copying out *)

(** A range of the storage below the length is a range of the contents. *)
Lemma range_of_contents b off n :
  0 <= off -> 0 <= n ->
  off + n <= length (header b) * elementSize (header b) ->
  take (Z.to_nat n) (drop (Z.to_nat off) (storage b))
  = take (Z.to_nat n) (drop (Z.to_nat off) (contents b)).
Proof.
  intros Hoff Hn Hfit. unfold contents.
  rewrite !take_drop_commute, take_take. f_equal. f_equal. lia.
Qed.

(** [vector_slice] into a buffer of the caller, in terms of the storage. *)
Lemma slice_run h vec b index count buf :
  backed h vec b ->
  well_formed b ->
  0 <= index -> 0 <= count ->
  index + count <= length (header b) ->
  count * elementSize (header b) <= zlen buf ->
  vector_slice vec index (Caller buf) count h
  = Ok (Caller (take (Z.to_nat (count * elementSize (header b)))
                  (drop (Z.to_nat (index * elementSize (header b))) (storage b))
                ++ drop (Z.to_nat (count * elementSize (header b))) buf), h).
Proof.
  intros Hb [Hlen Hes Hroom Hcap Hst] Hi Hc Hrange Hbuf.
  assert (Hm := modulus_eq). unfold sizeof_header, sizeof_word in Hroom.
  set (len := length (header b)) in *. set (es := elementSize (header b)) in *.
  set (cap := capacity (header b)) in *.
  assert (Hbytes : index * es + count * es <= len * es) by nia.
  assert (Hle : len * es <= cap * es) by nia.
  unfold vector_slice.
  rewrite (base_backed Hb), (nonnull_backed Hb).
  rewrite (bind_ok _ _ _ _ _ (run_load Hb)). fold len.
  rewrite (wrap_small (index + count)) by lia.
  rewrite gtb_le by lia.
  rewrite (bind_ok _ _ _ _ _ (run_at_unchecked Hb _)).
  rewrite (bind_ok _ _ _ _ _ (run_load Hb)). fold es.
  rewrite (wrap_small (index * es)), (wrap_small (count * es)) by nia.
  unfold memcpy. destruct (Z.eqb_spec (count * es) 0) as [Hz|Hnz].
  - rewrite Hz. reflexivity.
  - cbn [overlap].
    assert (Hl : h !! vec = Some b) by apply Hb.
    rewrite (bind_ok _ _ _ _ _
               (run_peek h vec b (index * es) (count * es) Hl
                  ltac:(nia) ltac:(nia) ltac:(rewrite Hst; fold cap es; nia))).
    unfold poke, write_at.
    replace (_ && _) with true.
    + unfold splice. simpl. rewrite length_take, length_drop.
      replace (Z.to_nat (count * es)
               `min` (Datatypes.length (storage b) - Z.to_nat (index * es)))%nat
        with (Z.to_nat (count * es)) by lia.
      reflexivity.
    + symmetry. apply andb_true_iff. split; apply Z.leb_le; [lia|].
      rewrite length_take, length_drop. lia.
Qed.

(** X7: [vector_slice] into a buffer of the caller.  For a range inside the
    vector, [index + count <= length], and a buffer of at least
    [count * elementSize] bytes, the call returns, the buffer starts with
    the bytes of the elements [index] to [index + count], its other bytes
    are as before, and the heap is untouched. *)
Theorem slice_copies h vec b index count buf :
  backed h vec b ->
  well_formed b ->
  0 <= index -> 0 <= count ->
  index + count <= length (header b) ->
  count * elementSize (header b) <= zlen buf ->
  vector_slice vec index (Caller buf) count h
  = Ok (Caller (take (Z.to_nat (count * elementSize (header b)))
                  (drop (Z.to_nat (index * elementSize (header b))) (contents b))
                ++ drop (Z.to_nat (count * elementSize (header b))) buf), h).
Proof.
  intros Hb Hwf Hi Hc Hrange Hbuf.
  assert (Hes : 0 <= elementSize (header b)) by apply Hwf.
  rewrite <- range_of_contents by nia.
  now apply slice_run.
Qed.

Lemma slice_copies_witness :
  vector_slice 16 1 (Caller [xff; xff; xff]) 2 heap_three
  = Ok (Caller [x02; x03; xff], heap_three).
Proof.
  apply (slice_copies heap_three 16 three 1 2 [xff; xff; xff]
           backed_three well_formed_three); simpl; lia.
Defined.

(** ** Ranges outside the vector *)

(** X8: a range that ends behind the last element, [index + count > length]
    with the sum inside a [size_t], makes [vector_remove] and
    [vector_slice] abort, on the tagged-empty form as on a block; an index
    behind the last element makes [vector_insert] abort, whether or not it
    had to grow the vector first. *)
Theorem out_of_range_aborts alloc h vec index count p :
  valid h vec ->
  is_size index ->
  is_size count ->
  index + count < modulus ->
  (length (header_of h vec) < index + count ->
   vector_remove vec index count h = Abort
   /\ forall slice, vector_slice vec index slice count h = Abort)
  /\ (length (header_of h vec) < index ->
      room_for alloc h vec count p ->
      forall elements, vector_insert alloc vec index elements count h = Abort).
Proof.
  intros Hv Hi Hc Hsum. unfold is_size in Hi. split.
  - intros Hout. destruct Hv as [(Ht & _) | (b & Hb & Hwf)].
    + unfold vector_remove, vector_slice.
      rewrite (vector_base_tagged _ Ht). now split.
    + rewrite (header_of_backed _ _ _ Hb) in Hout.
      unfold is_size in Hc. split; [|intros slice].
      * unfold vector_remove.
        rewrite (base_backed Hb), (nonnull_backed Hb).
        rewrite (bind_ok _ _ _ _ _ (run_len Hb)).
        rewrite (wrap_small (index + count)) by lia.
        now rewrite gtb_gt by lia.
      * unfold vector_slice.
        rewrite (base_backed Hb), (nonnull_backed Hb).
        rewrite (bind_ok _ _ _ _ _ (run_load Hb)).
        rewrite (wrap_small (index + count)) by lia.
        now rewrite gtb_gt by lia.
  - intros Hout Hroom elements.
    destruct (reserve_ready alloc h vec count p Hv Hc Hroom)
      as (h1 & b1 & Hres & Hb1 & _ & Hlen1 & _).
    unfold vector_insert. rewrite (bind_ok _ _ _ _ _ Hres).
    rewrite (base_backed Hb1), (nonnull_backed Hb1).
    rewrite (bind_ok _ _ _ _ _ (run_load Hb1)).
    rewrite gtb_gt by lia. reflexivity.
Qed.

Lemma out_of_range_aborts_witness :
  (vector_remove 16 2 2 heap_three = Abort
   /\ forall slice, vector_slice 16 2 slice 2 heap_three = Abort)
  /\ forall elements, vector_insert bump 16 4 elements 1 heap_three = Abort.
Proof.
  assert (Hs : forall n, 0 <= n < 100 -> is_size n)
    by (intros n Hn; unfold is_size; rewrite modulus_eq; lia).
  split.
  - apply (out_of_range_aborts bump heap_three 16 2 2 16 valid_three);
      [apply Hs; lia | apply Hs; lia | rewrite modulus_eq; lia
      | vm_compute; reflexivity].
  - apply (out_of_range_aborts bump heap_three 16 4 1 16 valid_three);
      [apply Hs; lia | apply Hs; lia | rewrite modulus_eq; lia
      | vm_compute; reflexivity | apply room_in_three].
Defined.

(** ** Release *)

(** X9: [vector_delete] does nothing to the heap for the tagged-empty form.
    For a heap-backed vector it releases the block and no other; after it
    the handle names no block, so that reading its length, or deleting it
    once more, leaves the memory the program owns. *)
Theorem delete_releases h vec :
  (tagged vec -> vector_delete vec h = Ok (tt, h))
  /\ (forall b,
        backed h vec b ->
        vector_delete vec h = Ok (tt, delete vec h)
        /\ (forall q, q <> vec -> delete vec h !! q = h !! q)
        /\ vector_len vec (delete vec h) = Fault
        /\ vector_delete vec (delete vec h) = Fault).
Proof.
  split.
  - intros Ht. unfold vector_delete. now rewrite (vector_base_tagged _ Ht).
  - intros b Hb. unfold vector_delete, vector_len, free, load_header, bind.
    rewrite (base_backed Hb), (nonnull_backed Hb).
    destruct Hb as (_ & _ & Hl). rewrite Hl, lookup_delete_eq.
    repeat split. intros q Hq. now apply lookup_delete_ne.
Qed.

Lemma delete_releases_witness :
  vector_delete 16 heap_three = Ok (tt, ∅)
  /\ vector_len 16 ∅ = Fault.
Proof.
  destruct (delete_releases heap_three 16) as (_ & H).
  destruct (H three backed_three) as (H1 & _ & H3 & _).
  split; [exact H1 | exact H3].
Defined.

(** ** Storage that is reused *)

Lemma header_from_fields hd cap len es :
  capacity hd = cap -> length hd = len -> elementSize hd = es ->
  hd = Header cap len es.
Proof. destruct hd. simpl. now intros -> -> ->. Qed.

(** X10: [vector_clear] followed by a [vector_push] of no more elements
    than the capacity.  Whatever the allocator would answer, the handle and
    the capacity stay as they were: the vector then holds exactly the
    pushed elements, in the storage it had. *)
Theorem clear_then_push alloc h vec b bs count :
  backed h vec b ->
  well_formed b ->
  0 <= count <= capacity (header b) ->
  count * elementSize (header b) <= zlen bs ->
  exists h' b',
    (vector_clear vec;; vector_push alloc vec (Caller bs) count) h = Ok (vec, h')
    /\ backed h' vec b'
    /\ header b' = Header (capacity (header b)) count (elementSize (header b))
    /\ contents b' = take (Z.to_nat (count * elementSize (header b))) bs
    /\ forall q, q <> vec -> h' !! q = h !! q.
Proof.
  intros Hb Hwf Hc Hbs. assert (Hwf' := Hwf).
  destruct Hwf' as [Hlen Hes Hroom Hcap Hst].
  set (b0 := Block (Header (capacity (header b)) 0 (elementSize (header b)))
               (storage b)).
  assert (Hb0 : backed (<[vec := b0]> h) vec b0) by exact (backed_insert _ _ _ _ Hb).
  assert (Hwf0 : well_formed b0) by (constructor; simpl; trivial; lia).
  assert (Hhd0 := header_of_backed _ _ _ Hb0).
  destruct (view_backed _ _ _ Hb0) as (_ & _ & Hco0).
  destruct (push_run alloc (<[vec := b0]> h) vec bs count vec
              (valid_backed _ _ _ Hb0 Hwf0))
    as (h' & b' & Hrun & Hb' & _ & Hlen' & Hes' & Hcap' & Hco' & Hfr).
  - unfold is_size. lia.
  - left. rewrite Hhd0. simpl. split; [lia|]. split; [now exists b0 | reflexivity].
  - rewrite Hhd0. exact Hbs.
  - rewrite Hhd0 in *. simpl in *.
    replace (0 + count <=? capacity (header b)) with true in Hcap'
      by (symmetry; apply Z.leb_le; lia).
    exists h', b'. split.
    + now rewrite (bind_ok _ _ _ _ _ (run_clear _ _ _ Hb)).
    + split; [exact Hb'|]. split; [now apply header_from_fields|].
      split; [now rewrite Hco', Hco0|].
      intros q Hq. rewrite (Hfr q Hq Hq). now apply lookup_insert_ne.
Qed.

Lemma clear_then_push_witness :
  exists h' b',
    (vector_clear 16;; vector_push no_memory 16 (Caller [x07; x08]) 2) heap_three
    = Ok (16, h')
    /\ backed h' 16 b'
    /\ header b' = Header 4 2 1
    /\ contents b' = [x07; x08]
    /\ forall q, q <> 16 -> h' !! q = heap_three !! q.
Proof.
  apply (clear_then_push no_memory heap_three 16 three [x07; x08] 2
           backed_three well_formed_three); simpl; lia.
Defined.



(** ** Round trips *)

(** Removing the last [count] elements moves no byte. *)
Lemma remove_tail_run h vec b count :
  backed h vec b ->
  well_formed b ->
  0 <= count <= length (header b) ->
  vector_remove vec (length (header b) - count) count h
  = Ok (tt, <[vec := Block (Header (capacity (header b)) (length (header b) - count)
                              (elementSize (header b)))
                       (storage b)]> h).
Proof.
  intros Hb [Hlen Hes Hroom Hcap Hst] Hc. assert (Hm := modulus_eq).
  set (len := length (header b)) in *.
  unfold vector_remove.
  rewrite (base_backed Hb), (nonnull_backed Hb).
  rewrite (bind_ok _ _ _ _ _ (run_len Hb)). fold len.
  replace (len - count + count) with len by lia.
  rewrite (wrap_small len) by lia. rewrite gtb_le by lia.
  rewrite (bind_ok _ _ _ _ _ (run_at_unchecked Hb _)).
  rewrite (bind_ok _ _ _ _ _ (run_at_unchecked Hb _)).
  rewrite (bind_ok _ _ _ _ _ (run_load Hb)). fold len.
  replace (len - (len - count)) with count by lia.
  rewrite (wrap_small count) by lia.
  rewrite Z.sub_diag, wrap_0, Z.mul_0_l, wrap_0.
  unfold memmove. simpl (0 =? 0).
  rewrite (bind_ok _ _ _ _ _ eq_refl).
  rewrite (bind_ok _ _ _ _ _ (run_load Hb)). fold len.
  rewrite (wrap_small (len - count)) by lia.
  now apply run_store_length.
Qed.

Lemma length_contents_of h vec :
  valid h vec ->
  zlen (contents_of h vec)
  = length (header_of h vec) * elementSize (header_of h vec).
Proof.
  intros Hv. destruct (layout_of_valid _ _ Hv) as (Hle & _ & Hes & Hst).
  unfold contents_of. rewrite length_take. nia.
Qed.

(** X12: pushing [count] elements and removing the [count] elements at the
    old length restores the vector: it has the length, the element size
    and the contents it had before the push. *)
Theorem push_then_remove alloc h vec bs count p :
  valid h vec ->
  is_size count ->
  room_for alloc h vec count p ->
  count * elementSize (header_of h vec) <= zlen bs ->
  exists h',
    (let* v := vector_push alloc vec (Caller bs) count in
     vector_remove v (length (header_of h vec)) count;; ret v) h = Ok (p, h')
    /\ length (header_of h' p) = length (header_of h vec)
    /\ elementSize (header_of h' p) = elementSize (header_of h vec)
    /\ contents_of h' p = contents_of h vec.
Proof.
  intros Hv Hc Hroom Hbs.
  destruct (layout_of_valid _ _ Hv) as (Hle & _ & Hes0 & _).
  assert (Hlc := length_contents_of _ _ Hv).
  destruct (push_run alloc h vec bs count p Hv Hc Hroom Hbs)
    as (h1 & b1 & Hrun & Hb1 & Hwf1 & Hlen1 & Hes1 & _ & Hco1 & _).
  unfold is_size in Hc.
  assert (Hrem := remove_tail_run h1 p b1 count Hb1 Hwf1 ltac:(lia)).
  replace (length (header b1) - count) with (length (header_of h vec)) in Hrem by lia.
  eexists. split.
  - rewrite (bind_ok _ _ _ _ _ Hrun). now rewrite (bind_ok _ _ _ _ _ Hrem).
  - destruct (view_backed _ _ _ (backed_insert h1 p b1
                (Block (Header (capacity (header b1)) (length (header_of h vec))
                          (elementSize (header b1))) (storage b1)) Hb1))
      as (Hhd & _ & Hco).
    rewrite Hhd, Hco. simpl. split; [reflexivity|]. split; [exact Hes1|].
    unfold contents. simpl. rewrite Hes1.
    assert (Hpre : take (Z.to_nat (length (header_of h vec)
                                   * elementSize (header_of h vec)))
                     (contents b1) = contents_of h vec)
      by (rewrite Hco1; apply take_app_length'; lia).
    rewrite <- Hpre. unfold contents. rewrite take_take. f_equal.
    rewrite Hlen1, Hes1. nia.
Qed.

Lemma push_then_remove_witness :
  exists h',
    (let* v := vector_push bump 16 (Caller [x09]) 1 in
     vector_remove v 3 1;; ret v) heap_three = Ok (16, h')
    /\ length (header_of h' 16) = 3
    /\ elementSize (header_of h' 16) = 1
    /\ contents_of h' 16 = [x01; x02; x03].
Proof.
  apply (push_then_remove bump heap_three 16 [x09] 1 16 valid_three).
  - unfold is_size. rewrite modulus_eq. lia.
  - apply room_in_three.
  - vm_compute. discriminate.
Defined.

(** The pointer [vector_at] returns inside the vector, and the element read
    through it. *)
Lemma element_read h vec b index :
  backed h vec b ->
  well_formed b ->
  0 <= index < length (header b) ->
  (let* p := vector_at vec index in peek p (elementSize (header b))) h
  = Ok (take (Z.to_nat (elementSize (header b)))
          (drop (Z.to_nat (index * elementSize (header b))) (contents b)), h).
Proof.
  intros Hb [Hlen Hes Hroom Hcap Hst] Hi. assert (Hm := modulus_eq).
  unfold sizeof_header, sizeof_word in Hroom.
  set (len := length (header b)) in *. set (es := elementSize (header b)) in *.
  set (cap := capacity (header b)) in *.
  assert (Hbytes : index * es + es <= len * es) by nia.
  assert (Hle : len * es <= cap * es) by nia.
  assert (Hat : vector_at vec index h = Ok (Elem vec (index * es), h)).
  { unfold vector_at, vector_at_mut.
    rewrite (bind_ok _ _ _ _ _ (run_len Hb)). fold len.
    replace (index <? len) with true by (symmetry; apply Z.ltb_lt; lia).
    rewrite (run_at_unchecked Hb index). fold es.
    now rewrite (wrap_small (index * es)) by nia. }
  rewrite (bind_ok _ _ _ _ _ Hat).
  rewrite <- (range_of_contents b (index * es) es) by (fold len es; nia).
  apply run_peek; [apply Hb | nia | lia | rewrite Hst; fold cap es; nia].
Qed.

(** X13: the element at an index below the length can be read through the
    pointer that [vector_at] returns: the [elementSize] bytes there are the
    bytes of that element. *)
Theorem at_reads_element h vec b index :
  backed h vec b ->
  well_formed b ->
  0 <= index < length (header b) ->
  exists p,
    vector_at vec index h = Ok (p, h)
    /\ p <> NULL
    /\ peek p (elementSize (header b)) h
       = Ok (take (Z.to_nat (elementSize (header b)))
               (drop (Z.to_nat (index * elementSize (header b))) (contents b)), h).
Proof.
  intros Hb Hwf Hi. assert (Hread := element_read h vec b index Hb Hwf Hi).
  apply bind_inv in Hread as (p & h1 & Hat & Hpeek).
  assert (h1 = h) as -> by (now apply read_only_at_mut in Hat).
  exists p. split; [exact Hat|]. split; [|exact Hpeek].
  intros ->. discriminate.
Qed.

Lemma at_reads_element_witness :
  exists p,
    vector_at 16 1 heap_three = Ok (p, heap_three)
    /\ p <> NULL
    /\ peek p 1 heap_three = Ok ([x02], heap_three).
Proof.
  apply (at_reads_element heap_three 16 three 1 backed_three well_formed_three).
  simpl. lia.
Defined.

(** X14: a pushed element is found where it was put: after a push of
    [count] elements onto a vector of length [n], the element read through
    [vector_at] at index [n + j], for [j < count], is the [j]-th element
    of the buffer. *)
Theorem push_then_at alloc h vec bs count p j :
  valid h vec ->
  is_size count ->
  room_for alloc h vec count p ->
  count * elementSize (header_of h vec) <= zlen bs ->
  0 <= j < count ->
  exists h',
    (let* v := vector_push alloc vec (Caller bs) count in
     let* q := vector_at v (length (header_of h vec) + j) in
     peek q (elementSize (header_of h vec))) h
    = Ok (take (Z.to_nat (elementSize (header_of h vec)))
            (drop (Z.to_nat (j * elementSize (header_of h vec))) bs), h').
Proof.
  intros Hv Hc Hroom Hbs Hj.
  destruct (layout_of_valid _ _ Hv) as (Hle & _ & Hes0 & _).
  assert (Hlc := length_contents_of _ _ Hv).
  destruct (push_run alloc h vec bs count p Hv Hc Hroom Hbs)
    as (h1 & b1 & Hrun & Hb1 & Hwf1 & Hlen1 & Hes1 & _ & Hco1 & _).
  set (len := length (header_of h vec)) in *.
  set (es := elementSize (header_of h vec)) in *.
  assert (Hread := element_read h1 p b1 (len + j) Hb1 Hwf1 ltac:(lia)).
  rewrite Hes1 in Hread.
  exists h1. rewrite (bind_ok _ _ _ _ _ Hrun), Hread. do 2 f_equal.
  rewrite Hco1.
  assert (Hjes : 0 <= j * es /\ j * es + es <= count * es) by nia.
  rewrite drop_app_ge by nia.
  replace (Z.to_nat ((len + j) * es) - Datatypes.length (contents_of h vec))%nat
    with (Z.to_nat (j * es)) by nia.
  rewrite !take_drop_commute, take_take. f_equal. f_equal. lia.
Qed.

Lemma push_then_at_witness :
  exists h',
    (let* v := vector_push bump 16 (Caller [x09]) 1 in
     let* q := vector_at v (3 + 0) in peek q 1) heap_three
    = Ok ([x09], h').
Proof.
  apply (push_then_at bump heap_three 16 [x09] 1 16 0 valid_three).
  - unfold is_size. rewrite modulus_eq. lia.
  - apply room_in_three.
  - vm_compute. discriminate.
  - lia.
Defined.

(** ** What an insertion can be relied on for *)

(** A move inside a block, when it returns, leaves the bytes below its
    destination alone. *)
Lemma memmove_inv h v b dst src n q h2 :
  h !! v = Some b ->
  0 <= dst ->
  memmove (Elem v dst) (Elem v src) n h = Ok (q, h2) ->
  exists st2,
    h2 = <[v := Block (header b) st2]> h
    /\ Datatypes.length st2 = Datatypes.length (storage b)
    /\ take (Z.to_nat dst) st2 = take (Z.to_nat dst) (storage b).
Proof.
  intros Hl Hdst. unfold memmove. destruct (n =? 0).
  - intros H. inversion H; subst. exists (storage b).
    rewrite block_eta, insert_id; auto.
  - intros H. apply bind_inv in H as (bs & h1 & Hpeek & Hpoke).
    apply read_only_peek in Hpeek. subst h1.
    unfold poke in Hpoke. rewrite Hl, write_block_storage in Hpoke by lia.
    unfold write_at in Hpoke.
    destruct (_ && _) eqn:E; [|discriminate].
    apply andb_true_iff in E as (_ & E). apply Z.leb_le in E.
    inversion Hpoke; subst. eexists. split; [reflexivity|]. split.
    + apply length_splice. lia.
    + unfold splice. apply take_app_length'. rewrite length_take. lia.
Qed.

(** A copy from a buffer of the caller into a block, when it returns, has
    put the first [n] bytes of the buffer at its destination and left the
    bytes below it alone. *)
Lemma memcpy_inv h v b off bs n q h3 :
  h !! v = Some b ->
  0 <= off -> 0 <= n ->
  memcpy (Elem v off) (Caller bs) n h = Ok (q, h3) ->
  exists st3,
    h3 = <[v := Block (header b) st3]> h
    /\ Datatypes.length st3 = Datatypes.length (storage b)
    /\ take (Z.to_nat off) st3 = take (Z.to_nat off) (storage b)
    /\ take (Z.to_nat n) (drop (Z.to_nat off) st3) = take (Z.to_nat n) bs.
Proof.
  intros Hl Hoff Hn. unfold memcpy. destruct (Z.eqb_spec n 0) as [->|Hnz].
  - intros H. inversion H; subst. exists (storage b).
    rewrite block_eta, insert_id; auto.
  - cbn [overlap]. intros H. apply bind_inv in H as (e & h1 & Hpeek & Hpoke).
    unfold peek, read_at in Hpeek.
    destruct (_ && _) eqn:E1; [|discriminate].
    apply andb_true_iff in E1 as (_ & E1). apply Z.leb_le in E1.
    inversion Hpeek; subst e h1. clear Hpeek. simpl drop in Hpoke.
    unfold poke in Hpoke. rewrite Hl, write_block_storage in Hpoke by lia.
    unfold write_at in Hpoke.
    destruct (_ && _) eqn:E2; [|discriminate].
    apply andb_true_iff in E2 as (_ & E2). apply Z.leb_le in E2.
    rewrite length_take in E2.
    inversion Hpoke; subst. eexists. split; [reflexivity|].
    split; [apply length_splice; rewrite length_take; lia|].
    unfold splice. split.
    + apply take_app_length'. rewrite length_take. lia.
    + rewrite drop_app_length' by (rewrite length_take; lia).
      apply take_app_length'. rewrite length_take. lia.
Qed.

(** X15: what every [vector_insert] that returns has done, the wrong size
    of its move notwithstanding: the handle is the one the growth step
    chose, the length is up by [count], the elements before [index] are
    the ones that were there, and the [count] elements from [index] on are
    the new ones. *)
Theorem insert_places alloc h vec index bs count p vec' h' :
  valid h vec ->
  is_size index ->
  is_size count ->
  room_for alloc h vec count p ->
  vector_insert alloc vec index (Caller bs) count h = Ok (vec', h') ->
  vec' = p
  /\ index <= length (header_of h vec)
  /\ exists b',
      backed h' p b'
      /\ length (header b') = length (header_of h vec) + count
      /\ elementSize (header b') = elementSize (header_of h vec)
      /\ take (Z.to_nat (index * elementSize (header_of h vec))) (contents b')
         = take (Z.to_nat (index * elementSize (header_of h vec))) (contents_of h vec)
      /\ take (Z.to_nat (count * elementSize (header_of h vec)))
           (drop (Z.to_nat (index * elementSize (header_of h vec))) (contents b'))
         = take (Z.to_nat (count * elementSize (header_of h vec))) bs.
Proof.
  intros Hv Hi Hc Hroom H. unfold is_size in Hi, Hc. assert (Hm := modulus_eq).
  destruct (reserve_ready alloc h vec count p Hv ltac:(exact Hc) Hroom)
    as (h1 & b1 & Hres & Hb1 & Hwf1 & Hlen1 & Hes1 & Hfit & Hpre & _).
  rewrite <- Hlen1, <- Hes1, <- Hpre.
  destruct Hwf1 as [Hlen Hes Hsize Hcap Hst].
  unfold sizeof_header, sizeof_word in Hsize.
  set (len := length (header b1)) in *. set (es := elementSize (header b1)) in *.
  set (cap := capacity (header b1)) in *. set (st1 := storage b1) in *.
  unfold vector_insert in H. rewrite (bind_ok _ _ _ _ _ Hres) in H.
  rewrite (base_backed Hb1), (nonnull_backed Hb1) in H.
  rewrite (bind_ok _ _ _ _ _ (run_load Hb1)) in H. fold len in H.
  destruct (Z.gtb_spec index len) as [|Hin]; [discriminate|].
  rewrite (bind_ok _ _ _ _ _ (run_at_unchecked Hb1 _)) in H. fold es in H.
  assert (Hbytes : index * es <= len * es /\ (len + count) * es <= cap * es
                   /\ 0 <= index * es /\ 0 <= count * es) by nia.
  rewrite (wrap_small (index * es)) in H by lia.
  assert (Hl1 : h1 !! p = Some b1) by apply Hb1.
  apply bind_inv in H as ([] & h2 & Hmove & H).
  assert (Hst2 : exists st2,
             h2 = <[p := Block (header b1) st2]> h1
             /\ Datatypes.length st2 = Datatypes.length st1
             /\ take (Z.to_nat (index * es)) st2 = take (Z.to_nat (index * es)) st1).
  { destruct (index <? len).
    - rewrite (bind_ok _ _ _ _ _ (run_at_unchecked Hb1 _)) in Hmove.
      rewrite (bind_ok _ _ _ _ _ (run_load Hb1)) in Hmove. fold es in Hmove.
      rewrite (wrap_small (index + count)) in Hmove by lia.
      rewrite (wrap_small ((index + count) * es)) in Hmove by nia.
      apply bind_inv in Hmove as (q & h2' & Hmm & Hret).
      inversion Hret; subst h2'.
      assert (Hd : 0 <= (index + count) * es) by nia.
      destruct (memmove_inv _ _ _ _ _ _ _ _ Hl1 Hd Hmm)
        as (st2 & -> & Hlen2 & Hpre2).
      exists st2. split; [reflexivity|]. split; [exact Hlen2|].
      apply (f_equal (take (Z.to_nat (index * es)))) in Hpre2.
      rewrite !take_take in Hpre2.
      now replace (Z.to_nat (index * es) `min` Z.to_nat ((index + count) * es))%nat
        with (Z.to_nat (index * es)) in Hpre2 by nia.
    - inversion Hmove; subst h2. exists st1.
      unfold st1. rewrite block_eta, insert_id; auto. }
  destruct Hst2 as (st2 & -> & Hlen2 & Hpre2).
  assert (Hb2 := backed_insert h1 p b1 (Block (header b1) st2) Hb1).
  rewrite (bind_ok _ _ _ _ _ (run_load Hb2)) in H. simpl header in H. fold es in H.
  rewrite (wrap_small (count * es)) in H by lia.
  apply bind_inv in H as (q & h3 & Hcpy & H).
  destruct (memcpy_inv _ _ _ _ _ _ _ _ (lookup_insert_eq _ _ _)
              (proj1 (proj2 (proj2 Hbytes))) (proj2 (proj2 (proj2 Hbytes))) Hcpy)
    as (st3 & -> & Hlen3 & Hpre3 & Hnew).
  simpl in Hlen3, Hpre3. rewrite insert_insert_eq in H.
  assert (Hb3 := backed_insert h1 p b1 (Block (header b1) st3) Hb1).
  rewrite (bind_ok _ _ _ _ _ (run_load Hb3)) in H. simpl header in H. fold len in H.
  rewrite (wrap_small (len + count)) in H by lia.
  rewrite (bind_ok _ _ _ _ _ (run_store_length _ _ _ _ Hb3)) in H.
  simpl in H. inversion H; subst vec' h'. clear H.
  rewrite insert_insert_eq.
  split; [reflexivity|]. split; [exact Hin|].
  eexists (Block _ _). split; [exact (backed_insert _ _ _ _ Hb1)|]. simpl.
  split; [reflexivity|]. split; [reflexivity|].
  unfold contents. simpl. fold len es. split.
  - rewrite !take_take.
    replace (Z.to_nat (index * es) `min` Z.to_nat ((len + count) * es))%nat
      with (Z.to_nat (index * es)) by nia.
    replace (Z.to_nat (index * es) `min` Z.to_nat (len * es))%nat
      with (Z.to_nat (index * es)) by lia.
    now rewrite Hpre3, Hpre2.
  - rewrite <- Hnew. rewrite !take_drop_commute, take_take.
    f_equal. f_equal. nia.
Qed.

Lemma insert_places_witness :
  exists b',
    vector_insert bump 16 1 (Caller [x09]) 1 heap_three = Ok (16, {[ 16 := b' ]})
    /\ length (header b') = 3 + 1
    /\ take 1 (contents b') = [x01]
    /\ take 1 (drop 1 (contents b')) = [x09].
Proof.
  exists (Block (Header 4 4 1) [x01; x09; x02; xaa]).
  assert (Hrun : vector_insert bump 16 1 (Caller [x09]) 1 heap_three
                 = Ok (16, {[ 16 := Block (Header 4 4 1) [x01; x09; x02; xaa] ]}))
    by (vm_compute; reflexivity).
  split; [exact Hrun|].
  destruct (insert_places bump heap_three 16 1 [x09] 1 16 16 _ valid_three
              ltac:(unfold is_size; rewrite modulus_eq; lia)
              ltac:(unfold is_size; rewrite modulus_eq; lia)
              room_in_three Hrun)
    as (_ & _ & b' & Hb' & Hlen & _ & Hpre & Hnew).
  assert (b' = Block (Header 4 4 1) [x01; x09; x02; xaa]) as ->.
  { destruct Hb' as (_ & _ & Hl). vm_compute in Hl. congruence. }
  split; [exact Hlen|]. split; [exact Hpre | exact Hnew].
Defined.

(** X16: taking the last [count] elements out with [vector_slice] and
    [vector_remove] and putting them back with [vector_push] restores the
    vector: the header and the contents are the ones before, and the
    handle never changes, whatever the allocator would answer. *)
Theorem tail_round_trip alloc h vec b count buf :
  backed h vec b ->
  well_formed b ->
  0 <= count <= length (header b) ->
  count * elementSize (header b) <= zlen buf ->
  exists h',
    (let* s := vector_slice vec (length (header b) - count) (Caller buf) count in
     vector_remove vec (length (header b) - count) count;;
     vector_push alloc vec s count) h = Ok (vec, h')
    /\ header_of h' vec = header b
    /\ contents_of h' vec = contents b.
Proof.
  intros Hb Hwf Hc Hbuf. assert (Hwf' := Hwf).
  destruct Hwf' as [Hlen Hes Hroom Hcap Hst].
  set (len := length (header b)) in *. set (es := elementSize (header b)) in *.
  set (cap := capacity (header b)) in *.
  assert (Hn : 0 <= count * es /\ 0 <= (len - count) * es
               /\ (len - count) * es + count * es = len * es
               /\ len * es <= cap * es) by nia.
  assert (Hslice := slice_run h vec b (len - count) count buf Hb Hwf
                      ltac:(lia) ltac:(lia) ltac:(fold len; lia) Hbuf).
  fold es in Hslice.
  rewrite (range_of_contents b ((len - count) * es) (count * es)) in Hslice
    by (fold len es; lia).
  assert (Hrem := remove_tail_run h vec b count Hb Hwf Hc).
  fold len cap es in Hrem.
  set (b1 := Block (Header cap (len - count) es) (storage b)) in *.
  set (s := take (Z.to_nat (count * es))
              (drop (Z.to_nat ((len - count) * es)) (contents b))
            ++ drop (Z.to_nat (count * es)) buf) in *.
  assert (Hb1 : backed (<[vec := b1]> h) vec b1) by exact (backed_insert _ _ _ _ Hb).
  assert (Hwf1 : well_formed b1) by (constructor; simpl; trivial; lia).
  assert (Hhd1 := header_of_backed _ _ _ Hb1).
  destruct (view_backed _ _ _ Hb1) as (_ & _ & Hco1).
  assert (Hlc : zlen (contents b) = len * es)
    by (unfold contents; fold len es; rewrite length_take; lia).
  assert (Hpart : Datatypes.length
                    (take (Z.to_nat (count * es))
                       (drop (Z.to_nat ((len - count) * es)) (contents b)))
                  = Z.to_nat (count * es))
    by (rewrite length_take, length_drop; lia).
  destruct (push_run alloc (<[vec := b1]> h) vec s count vec
              (valid_backed _ _ _ Hb1 Hwf1))
    as (h' & b' & Hrun & Hb' & _ & Hlen' & Hes' & Hcap' & Hco' & _).
  - unfold is_size. lia.
  - left. rewrite Hhd1. simpl. split; [lia|]. split; [now exists b1 | reflexivity].
  - rewrite Hhd1. simpl. unfold s. rewrite length_app, Hpart, length_drop. lia.
  - rewrite Hhd1 in *. simpl in *.
    replace (len - count + count <=? cap) with true in Hcap'
      by (symmetry; apply Z.leb_le; lia).
    exists h'. split.
    + rewrite (bind_ok _ _ _ _ _ Hslice), (bind_ok _ _ _ _ _ Hrem). exact Hrun.
    + destruct (view_backed _ _ _ Hb') as (Hhd' & _ & Hco).
      rewrite Hhd', Hco, Hco', Hco1. split.
      * rewrite <- (header_eta (header b)). apply header_from_fields; trivial.
        fold len. lia.
      * unfold s. rewrite take_app_length' by (symmetry; exact Hpart).
        rewrite (take_ge (drop _ (contents b))) by (rewrite length_drop; lia).
        unfold contents at 1. simpl. fold es.
        replace (take (Z.to_nat ((len - count) * es)) (storage b))
          with (take (Z.to_nat ((len - count) * es)) (contents b)).
        -- apply take_drop.
        -- unfold contents. fold len es. rewrite take_take. f_equal. lia.
Qed.

Lemma tail_round_trip_witness :
  exists h',
    (let* s := vector_slice 16 (3 - 2) (Caller [xff; xff]) 2 in
     vector_remove 16 (3 - 2) 2;;
     vector_push no_memory 16 s 2) heap_three = Ok (16, h')
    /\ header_of h' 16 = Header 4 3 1
    /\ contents_of h' 16 = [x01; x02; x03].
Proof.
  apply (tail_round_trip no_memory heap_three 16 three 2 [xff; xff]
           backed_three well_formed_three); simpl; lia.
Defined.

(** ** A vector extended by itself *)

(** X17: [vector_extend(&v, v)] with room for twice the length.  The source
    and the destination of the copy are two halves of one block that do
    not overlap: the call returns with the same handle and the vector
    holds its contents twice. *)
Theorem extend_with_itself alloc h vec b :
  backed h vec b ->
  well_formed b ->
  2 * length (header b) <= capacity (header b) ->
  exists h' b',
    vector_extend alloc vec vec h = Ok (vec, h')
    /\ backed h' vec b'
    /\ header b'
       = Header (capacity (header b)) (2 * length (header b)) (elementSize (header b))
    /\ contents b' = contents b ++ contents b.
Proof.
  intros Hb Hwf Hroom. assert (Hwf' := Hwf).
  destruct Hwf' as [Hlen Hes Hsize Hcap Hst]. assert (Hm := modulus_eq).
  set (len := length (header b)) in *. set (es := elementSize (header b)) in *.
  set (cap := capacity (header b)) in *.
  assert (Hn : 0 <= len * es /\ len * es + len * es <= cap * es) by nia.
  assert (He : zlen (contents b) = len * es)
    by (unfold contents; fold len es; rewrite length_take; lia).
  destruct (appended_block b (contents b) len Hwf ltac:(lia) ltac:(fold len cap; lia) He)
    as (_ & Hco').
  fold len es cap in Hco'.
  eexists _, (Block _ _). split; [|split; [exact (backed_insert _ _ _ _ Hb)|]].
  - unfold vector_extend.
    rewrite (bind_ok _ _ _ _ _ (run_element_size Hb)).
    rewrite (bind_ok _ _ _ _ _ (run_element_size Hb)).
    rewrite Z.eqb_refl. cbn [negb].
    rewrite (base_backed Hb), (nonnull_backed Hb). cbn [negb].
    rewrite (bind_ok _ _ _ _ _ (run_load Hb)).
    unfold vector_push. rewrite (bind_ok _ _ _ _ _ (run_len Hb)).
    apply (insert_at_end alloc h vec (Elem vec 0) len vec h b (contents b));
      trivial; try (fold len cap; lia).
    + apply (reserve_fits alloc h vec b len Hb). fold len cap.
      rewrite wrap_small; lia.
    + right. fold len es. split.
      * unfold overlap. rewrite Z.eqb_refl, Z.add_0_l, Z.ltb_irrefl. reflexivity.
      * assert (Hl : h !! vec = Some b) by apply Hb.
        rewrite (run_peek h vec b 0 (len * es) Hl); [reflexivity | lia | lia | lia].
  - simpl. split; [f_equal; lia|].
    exact Hco'.
Qed.

Lemma extend_with_itself_witness :
  exists h' b',
    vector_extend no_memory 16 16 heap_one_of_two = Ok (16, h')
    /\ backed h' 16 b'
    /\ header b' = Header 2 (2 * 1) 1
    /\ contents b' = [x01] ++ [x01].
Proof.
  apply (extend_with_itself no_memory heap_one_of_two 16 one_of_two).
  - split; [reflexivity | split; [discriminate | reflexivity]].
  - constructor; cbn; rewrite ?modulus_eq; unfold sizeof_header, sizeof_word; lia.
  - simpl. lia.
Defined.

(** After a [realloc] that moved the block, the old address is no longer
    live. *)
Lemma realloc_moves alloc h vec b size p hr :
  backed h vec b ->
  realloc alloc vec size h = Ok (p, hr) ->
  p <> 0 -> p <> vec ->
  hr !! vec = None.
Proof.
  intros Hb. unfold realloc. rewrite (nonnull_backed Hb).
  destruct Hb as (_ & _ & Hl). rewrite Hl.
  destruct (alloc (delete vec h) size) as [f|].
  - destruct (size <? sizeof_header); [discriminate|].
    intros H _ Hne. inversion H; subst.
    rewrite lookup_insert_ne by congruence. apply lookup_delete_eq.
  - intros H Hp. inversion H; subst. now destruct Hp.
Qed.

(** X18: [vector_extend(&v, v)] without the room.  When the vector has
    elements of a non-zero size, must grow, and [realloc] moves its block
    to another address, the elements are then copied from the block that
    [realloc] released: the execution leaves the memory the program owns. *)
Theorem extend_with_itself_moved alloc h vec b p hr :
  backed h vec b ->
  well_formed b ->
  0 < length (header b) * elementSize (header b) ->
  let newCapacity :=
    capacity (header b) + capacity (header b) / 2 * 3 + length (header b) in
  let size := sizeof_header + newCapacity * elementSize (header b) in
  capacity (header b) < 2 * length (header b) ->
  newCapacity < modulus ->
  size < modulus ->
  realloc alloc vec size h = Ok (p, hr) ->
  p <> 0 -> Z.land p 1 = 0 -> p <> vec ->
  vector_extend alloc vec vec h = Fault.
Proof.
  intros Hb Hwf Hpos newCapacity size Hgrow HnewCap Hsize Hre Hp Heven Hne.
  assert (Hwf' := Hwf). destruct Hwf' as [Hlen Hes _ Hcap _].
  assert (Hm := modulus_eq).
  assert (Hv := valid_backed _ _ _ Hb Hwf).
  assert (Hhd := header_of_backed _ _ _ Hb).
  assert (Hc : is_size (length (header b))) by (unfold is_size; lia).
  assert (Hroom : room_for alloc h vec (length (header b)) p).
  { right. rewrite Hhd, (base_backed Hb). fold newCapacity size.
    repeat split; trivial; try lia. now exists hr. }
  destruct (reserve_ready alloc h vec _ p Hv Hc Hroom)
    as (h1 & b1 & Hres & Hb1 & Hwf1 & Hlen1 & Hes1 & Hfit & _ & _).
  rewrite Hhd in Hlen1, Hes1.
  assert (Hgone : h1 !! vec = None).
  { assert (H := reserve_run alloc h vec _ p hr Hv Hc).
    rewrite Hhd, (base_backed Hb) in H. specialize (H ltac:(lia) HnewCap Hsize Hre).
    rewrite (proj2 (Z.eqb_neq p 0) Hp) in H.
    destruct H as (hd1 & st & _ & _ & _ & _ & Hrun).
    rewrite Hrun in Hres. inversion Hres; subst h1.
    rewrite lookup_insert_ne by congruence.
    exact (realloc_moves _ _ _ _ _ _ _ Hb Hre Hp Hne). }
  destruct Hwf1 as [Hlenb1 Hesb1 Hsize1 Hcap1 Hst1].
  unfold sizeof_header, sizeof_word in Hsize1.
  unfold vector_extend.
  rewrite (bind_ok _ _ _ _ _ (run_element_size Hb)).
  rewrite (bind_ok _ _ _ _ _ (run_element_size Hb)).
  rewrite Z.eqb_refl. cbn [negb].
  rewrite (base_backed Hb), (nonnull_backed Hb). cbn [negb].
  rewrite (bind_ok _ _ _ _ _ (run_load Hb)).
  unfold vector_push. rewrite (bind_ok _ _ _ _ _ (run_len Hb)).
  unfold vector_insert. rewrite (bind_ok _ _ _ _ _ Hres).
  rewrite (base_backed Hb1), (nonnull_backed Hb1).
  rewrite (bind_ok _ _ _ _ _ (run_load Hb1)). rewrite Hlen1.
  rewrite gtb_le by lia.
  rewrite (bind_ok _ _ _ _ _ (run_at_unchecked Hb1 _)).
  rewrite Z.ltb_irrefl. rewrite (bind_ok _ _ _ _ _ eq_refl).
  rewrite (bind_ok _ _ _ _ _ (run_load Hb1)). rewrite Hes1.
  assert (Hbytes : length (header b) * elementSize (header b)
                   <= capacity (header b1) * elementSize (header b1))
    by (rewrite <- Hes1, <- Hlen1; nia).
  rewrite Hes1 in Hbytes.
  rewrite (wrap_small (length (header b) * elementSize (header b))) by lia.
  unfold memcpy.
  replace (_ =? 0) with false by (symmetry; apply Z.eqb_neq; lia).
  unfold overlap.
  replace (p =? vec) with false by (symmetry; apply Z.eqb_neq; congruence).
  cbn [andb]. unfold bind at 2 1, peek. now rewrite Hgone.
Qed.

Lemma extend_with_itself_moved_witness :
  vector_extend bump 16 16 heap_pair = Fault.
Proof.
  assert (Hb : backed heap_pair 16 three)
    by (split; [reflexivity | split; [discriminate | reflexivity]]).
  eapply (extend_with_itself_moved bump heap_pair 16 three 80 _ Hb well_formed_three).
  - reflexivity.
  - simpl. lia.
  - vm_compute. reflexivity.
  - vm_compute. reflexivity.
  - vm_compute. reflexivity.
  - discriminate.
  - reflexivity.
  - discriminate.
Defined.

(** ** The capacity a push leaves *)


